(** * The investigative agent of [src/agent/investigator.py]

    A shallow embedding of the class [InvestigativeAgent]: construction from
    the process environment, [fetch_pdf], [analyze_document],
    [find_connections], [generate_report] and the batch orchestrator
    [process_batch], followed by the properties of the batch pipeline.

    The network, the PDF parser, the language model and the conversational
    agent are collaborators of the code, not part of it.  They are gathered
    in a record [World] of oracles; every theorem holds for every world.  An
    oracle that performs I/O is given the whole history of the run so far, so
    nothing is assumed about two calls with the same argument giving the same
    answer (the model samples, the agent keeps a conversation memory, a
    server may answer differently the second time). *)

From Stdlib Require Import ZArith Lia Ascii String.
From Stdlib.Strings Require Import Byte.
From stdpp Require Import gmap strings list pretty.

Open Scope string_scope.
Open Scope list_scope.

(** ** Values *)

(** The line feed of the Python literal ["\n"]. *)
Definition LF : string := String "010"%char "".

(** What the code raises or lets through.  The values are the instances of
    Python's [Exception] class, the ones an [except Exception] clause
    catches; each constructor is a raise site.  [ValueError] is raised by
    the constructor (line 20), [FetchFailed] by [fetch_pdf] on the status
    test (line 91), [ExtractFailed] by its handler (line 103), and
    [External] stands for whatever a library call raises.  The argument is
    the message, what [str(e)] gives. *)
Inductive exn : Type :=
| ValueError (msg : string)
| FetchFailed (msg : string)
| ExtractFailed (msg : string)
| External (msg : string).

Definition exn_str (e : exn) : string :=
  match e with
  | ValueError m | FetchFailed m | ExtractFailed m | External m => m
  end.

(** The entry appended to [findings] for a batch (lines 146-149). *)
Record finding : Type := Finding {
  batch_results : list string;
  connections : string
}.

(** What [process_batch] returns: the report text, or a dict. *)
Inductive py_value : Type :=
| PyStr (s : string)
| PyDict (items : list (string * string)).

(** What [session.get] yields: the status line, and what [response.read()]
    will give (the body, or the message of the exception it raises). *)
Record Response : Type := {
  status : Z;
  read : string + list Byte.byte
}.

(** ** The run: history and events

    An event is the call of a method of the class ([Call_...], with its
    arguments), a call of a collaborator ([Http_get], [Llm_arun],
    [Agent_arun], with what it is given), or a line written by [print];
    writing to the standard output is taken to succeed. *)

Inductive event : Type :=
| Call_fetch_pdf (url : string)
| Call_analyze_document (document_text : string)
| Call_find_connections (documents : list string)
| Call_generate_report (findings : list finding)
| Http_get (url : string)
| Llm_arun (prompt : string)
| Agent_arun (prompt : string)
| Print (line : string).

Abbreviation trace := (list event).

(** The collaborators.  An oracle answers [inl msg] when the library call
    raises an exception whose [str] is [msg].
    - [http_get h url]: [session.get(url)] after the history [h];
    - [PdfReader content]: the pages of the parsed stream, each with the
      outcome of its [extract_text()]; parsing is a function of the bytes;
    - [llm h prompt]: one completion of the chat model for a formatted
      prompt;
    - [agent h prompt]: [self.agent.arun(prompt)]; the agent's memory is part
      of the history it is given;
    - [repr]: Python's [repr] of a [str];
    - [libraries key]: the constructors called by [__init__] after the key
      test (chat model, memory, chains, tools, agent), [Some msg] when one
      of them raises. *)
Record World : Type := {
  http_get : trace -> string -> string + Response;
  PdfReader : list Byte.byte -> string + list (string + string);
  llm : trace -> string -> string + string;
  agent : trace -> string -> string + string;
  repr : string -> string;
  libraries : string -> option string
}.

(** ** A monad for the methods

    A computation reads the history before it and gives its outcome together
    with the events it adds. *)
Module Run.

Definition M (A : Type) : Type := trace -> (exn + A) * trace.

Definition ret {A} (a : A) : M A := fun _ => (inr a, []).

Definition raise {A} (e : exn) : M A := fun _ => (inl e, []).

Definition bind {A B} (m : M A) (f : A -> M B) : M B :=
  fun h =>
    match m h with
    | (inl e, w) => (inl e, w)
    | (inr a, w) => let '(r, w') := f a (h ++ w) in (r, w ++ w')
    end.

(** [try: m except Exception as e: handler e] *)
Definition try_except {A} (m : M A) (handler : exn -> M A) : M A :=
  fun h =>
    match m h with
    | (inl e, w) => let '(r, w') := handler e (h ++ w) in (r, w ++ w')
    | (inr a, w) => (inr a, w)
    end.

Definition emit (ev : event) : M unit := fun _ => (inr tt, [ev]).

(** A library call: the event is recorded, the oracle is asked. *)
Definition external {A} (ev : event) (oracle : trace -> string + A) : M A :=
  fun h =>
    (match oracle h with inl msg => inl (External msg) | inr a => inr a end,
     [ev]).

(** A result that is already there (no I/O). *)
Definition lift {A} (r : string + A) : M A :=
  fun _ =>
    (match r with inl msg => inl (External msg) | inr a => inr a end, []).

(** [for x in xs: s = body x s] *)
Fixpoint for_each {A S} (xs : list A) (body : A -> S -> M S) (s : S) : M S :=
  match xs with
  | [] => ret s
  | x :: xs' => bind (body x s) (for_each xs' body)
  end.

End Run.

Import Run.

Notation "'run' x <- m ;; k" := (bind m (fun x => k))
  (at level 10, x name, m at level 99, k at level 200).
Notation "'act' m ;; k" := (bind m (fun _ => k))
  (at level 10, m at level 99, k at level 200).

(** ** The class *)

(** A prompt template with its single input variable at the end, which is the
    shape of the three templates of [__init__]: formatting appends the
    input to the text before the placeholder. *)
Record PromptTemplate : Type := {
  template : string;
  input_variable : string
}.

Definition format (p : PromptTemplate) (input : string) : string :=
  template p +:+ input.

(** The attributes that the constructor sets to plain data; the chat
    model and the agent built from them are oracles of the world. *)
Record InvestigativeAgent : Type := {
  api_key : string;
  model : string;
  document_chain : PromptTemplate;
  analysis_chain : PromptTemplate;
  report_chain : PromptTemplate;
  tools : list string
}.

(** The process environment, [os.environ] once [load_dotenv()] has run. *)
Abbreviation environ := (gmap string string).

Definition getenv (env : environ) (name : string) : option string :=
  env !! name.

(** Truth value of a [str]: the empty string is false. *)
Definition truthy (s : string) : bool :=
  match s with "" => false | _ => true end.

Definition error_marker : py_value :=
  PyDict [("error", "No documents were successfully processed")].

Section Agent.

Variable W : World.

(** [InvestigativeAgent.__init__] (lines 17-84). *)
Definition __init__ (env : environ) : exn + InvestigativeAgent :=
  let key := getenv env "OPENROUTER_API_KEY" in
  match key with
  | None => inl (ValueError "OPENROUTER_API_KEY environment variable not set")
  | Some k =>
      if negb (truthy k)
      then inl (ValueError "OPENROUTER_API_KEY environment variable not set")
      else
        match libraries W k with
        | Some msg => inl (External msg)
        | None =>
            inr {| api_key := k;
                   model := "anthropic/claude-3-opus";
                   document_chain :=
                     {| template := "Analyze the following document from an investigative perspective, focusing on geopolitical implications: ";
                        input_variable := "document" |};
                   analysis_chain :=
                     {| template := "Based on the document analysis, identify key findings and geopolitical implications. Focus on international relations, political motivations, and historical context: ";
                        input_variable := "analysis" |};
                   report_chain :=
                     {| template := "Generate a detailed investigative report summarizing the findings. Include sections for: Executive Summary, Key Findings, Geopolitical Implications, and Areas for Further Investigation: ";
                        input_variable := "findings" |};
                   tools := ["document_analyzer"; "connection_finder";
                             "report_generator"] |}
        end
  end.

Variable self : InvestigativeAgent.

(** [chain.arun(var=input)]: the template is formatted and the chat model
    completes it. *)
Definition arun (chain : PromptTemplate) (input : string) : M string :=
  external (Llm_arun (format chain input))
           (fun h => llm W h (format chain input)).

(** The body of the [try] of [fetch_pdf] (lines 97-101). *)
Definition extract_text (pdf_content : list Byte.byte) : M string :=
  run pages <- lift (PdfReader W pdf_content) ;;
  for_each pages
    (fun page text => run page_text <- lift page ;; ret (text +:+ page_text))
    "".

(** [fetch_pdf] (lines 86-103). *)
Definition fetch_pdf (url : string) : M string :=
  act emit (Call_fetch_pdf url) ;;
  run response <- external (Http_get url) (fun h => http_get W h url) ;;
  if negb (status response =? 200)%Z
  then raise (FetchFailed ("Failed to fetch PDF from " +:+ url))
  else
    run pdf_content <- lift (read response) ;;
    try_except (extract_text pdf_content)
      (fun e =>
         raise (ExtractFailed
                  ("Failed to extract text from PDF: " +:+ exn_str e))).

(** [analyze_document] (lines 105-108). *)
Definition analyze_document (document_text : string) : M string :=
  act emit (Call_analyze_document document_text) ;;
  run analysis <- arun (document_chain self) document_text ;;
  arun (analysis_chain self) analysis.

(** [str(doc)] for a result of [analyze_document], a [str]. *)
Definition str_doc (doc : string) : string := doc.

(** [str(finding)]: the text of a dict with a list of [str] and a
    [str]. *)
Definition str_finding (f : finding) : string :=
  "{'batch_results': [" +:+
  String.concat ", " (map (repr W) (batch_results f)) +:+
  "], 'connections': " +:+ repr W (connections f) +:+ "}".

Definition connections_prompt (documents_str : string) : string :=
  "Analyze these documents and identify connections, patterns, and relationships between them: "
  +:+ documents_str.

(** [find_connections] (lines 110-115). *)
Definition find_connections (documents : list string) : M string :=
  act emit (Call_find_connections documents) ;;
  let documents_str := String.concat (LF +:+ LF) (map str_doc documents) in
  external (Agent_arun (connections_prompt documents_str))
           (fun h => agent W h (connections_prompt documents_str)).

(** [generate_report] (lines 117-120). *)
Definition generate_report (findings : list finding) : M string :=
  act emit (Call_generate_report findings) ;;
  let findings_str :=
    String.concat (LF +:+ LF) (map str_finding findings) in
  arun (report_chain self) findings_str.

(** [range(start, stop, step)] for a positive step: indices are produced
    while they are below [stop]; [fuel] bounds the number of rounds. *)
Fixpoint range_from (fuel start stop step : nat) : list nat :=
  match fuel with
  | O => []
  | S fuel' =>
      if (start <? stop)%nat
      then start :: range_from fuel' (start + step) stop step
      else []
  end.

Definition range (start stop step : nat) : list nat :=
  range_from stop start stop step.

(** The slice [l[i:j]]. *)
Definition slice {A} (l : list A) (i j : nat) : list A :=
  take (j - i) (drop i l).

Definition diagnostic (url : string) (e : exn) : string :=
  "Error processing document " +:+ url +:+ ": " +:+ exn_str e.

(** One round of the loop over the URLs of a batch (lines 132-141). *)
Definition url_round (url : string) (batch_results : list string)
  : M (list string) :=
  try_except
    (run document_text <- fetch_pdf url ;;
     run analysis <- analyze_document document_text ;;
     ret (batch_results ++ [analysis]))
    (fun e => act emit (Print (diagnostic url e)) ;; ret batch_results).

(** What is done with a batch (lines 129-149). *)
Definition batch_step (batch : list string) (findings : list finding)
  : M (list finding) :=
  run batch_results <- for_each batch url_round [] ;;
  match batch_results with
  | _ :: _ =>
      run connections <- find_connections batch_results ;;
      ret (findings ++ [Finding batch_results connections])
  | [] => ret findings
  end.

(** One round of the loop over the batches (lines 126-149). *)
Definition batch_round (pdf_urls : list string) (i : nat)
  : list finding -> M (list finding) :=
  let batch := slice pdf_urls i (i + 3) in
  batch_step batch.

(** [process_batch] (lines 122-155). *)
Definition process_batch (pdf_urls : list string) : M py_value :=
  run findings <- for_each (range 0 (length pdf_urls) 3)
                       (batch_round pdf_urls) [] ;;
  match findings with
  | _ :: _ => run report <- generate_report findings ;; ret (PyStr report)
  | [] => ret error_marker
  end.

End Agent.

(** ** Vocabulary of the properties *)

(** The batches the loop of [process_batch] goes through, in order. *)
Definition batches (pdf_urls : list string) : list (list string) :=
  map (fun i => slice pdf_urls i (i + 3)) (range 0 (length pdf_urls) 3).

(** Readings of a list of events. *)
Definition find_connections_calls (w : trace) : list (list string) :=
  omap (fun ev =>
          match ev with Call_find_connections d => Some d | _ => None end) w.

Definition generate_report_calls (w : trace) : list (list finding) :=
  omap (fun ev =>
          match ev with Call_generate_report f => Some f | _ => None end) w.

Definition agent_prompts (w : trace) : list string :=
  omap (fun ev => match ev with Agent_arun p => Some p | _ => None end) w.

(** The events that the work on one document can add: its fetch, its
    analysis, its diagnostic line. *)
Definition document_event (ev : event) : bool :=
  match ev with
  | Call_fetch_pdf _ | Http_get _ | Call_analyze_document _ | Llm_arun _
  | Print _ => true
  | Call_find_connections _ | Call_generate_report _ | Agent_arun _ => false
  end.

(** [s] occurs in [m]. *)
Definition contains (s m : string) : Prop :=
  exists before after, m = before +:+ s +:+ after.

(** The outcome of one document: the exception that stopped it, or its
    analysis. *)
Abbreviation outcome := (exn + string)%type.

Definition succeeded (o : outcome) : bool :=
  match o with inr _ => true | inl _ => false end.

Definition failed (o : outcome) : bool := negb (succeeded o).

(** The analyses of the documents that succeeded, in order. *)
Definition successes (os : list outcome) : list string :=
  omap (fun o => match o with inr a => Some a | inl _ => None end) os.

Section Vocabulary.

Variable W : World.
Variable self : InvestigativeAgent.

(** A parse of [content] that fails with an exception whose text is
    [detail]: the reader raises it, or the text extraction of a page
    raises it after every page before it has given its text. *)
Definition parse_fails (content : list Byte.byte) (detail : string) : Prop :=
  PdfReader W content = inl detail \/
  exists texts rest,
    PdfReader W content = inr (map inr texts ++ inl detail :: rest).

(** Fetch, extraction and analysis of one URL (lines 134-137). *)
Definition attempt (url : string) : M string :=
  run document_text <- fetch_pdf W url ;;
  analyze_document W self document_text.

(** What the run does with the URLs of a batch, one after the other: the
    outcome of each, and the events.  Each URL is attempted in the history
    left by the ones before it; a failure leaves its diagnostic line. *)
Fixpoint outcomes (batch : list string) (h : trace) : list outcome * trace :=
  match batch with
  | [] => ([], [])
  | url :: rest =>
      let '(o, w) := attempt url h in
      let w1 := match o with
                | inl e => w ++ [Print (diagnostic url e)]
                | inr _ => w
                end in
      let '(os, w2) := outcomes rest (h ++ w1) in
      (o :: os, w1 ++ w2)
  end.

(** What the run does batch by batch, up to the report: the outcomes of
    the documents of each batch it goes through, the exception of the
    Connection Finder if one of its calls raised (the run stops there), and
    the events.  The Connection Finder is called after a batch with a
    success, on its analyses. *)
Fixpoint survey (bs : list (list string)) (h : trace)
  : list (list outcome) * option exn * trace :=
  match bs with
  | [] => ([], None, [])
  | batch :: bs' =>
      let '(os, w) := outcomes batch h in
      match successes os with
      | [] =>
          let '(oss, stop, w') := survey bs' (h ++ w) in
          (os :: oss, stop, w ++ w')
      | analyses =>
          match find_connections W analyses (h ++ w) with
          | (inl e, wc) => ([os], Some e, w ++ wc)
          | (inr _, wc) =>
              let '(oss, stop, w') := survey bs' (h ++ w ++ wc) in
              (os :: oss, stop, w ++ wc ++ w')
          end
      end
  end.

End Vocabulary.

(** ** Worlds to run the code in *)

(** A world whose server answers [status_of url] with a fixed body, whose
    parser gives [pages] for every stream, whose model numbers its
    completions by the length of the history, and whose agent gives
    [agent_reply]. *)
Definition simple_world (status_of : string -> Z)
           (pages : string + list (string + string))
           (agent_reply : string + string) : World :=
  {| http_get := fun _ url =>
       inr {| status := status_of url; read := inr [x25; x50; x44; x46] |};
     PdfReader := fun _ => pages;
     llm := fun h _ => inr ("completion " +:+ pretty (length h));
     agent := fun _ _ => agent_reply;
     repr := fun s => "'" +:+ s +:+ "'";
     libraries := fun _ => None |}.

Definition two_pages : string + list (string + string) :=
  inr [inr "page one."; inr "page two."].

(** Every URL is served, except the one named [missing]. *)
Definition status_by_name (url : string) : Z :=
  if String.eqb url "https://archive.example/missing.pdf" then 404%Z
  else 200%Z.

Definition healthy_world : World :=
  simple_world status_by_name two_pages (inr "connections").

Definition not_found_world : World :=
  simple_world (fun _ => 404%Z) two_pages (inr "connections").

Definition no_content_world : World :=
  simple_world (fun _ => 204%Z) two_pages (inr "connections").

Definition corrupt_pdf_world : World :=
  simple_world (fun _ => 200%Z) (inl "EOF marker not found")
               (inr "connections").

Definition agent_down_world : World :=
  simple_world (fun _ => 200%Z) two_pages (inl "rate limit exceeded").

Definition an_environ : environ :=
  {[ "OPENROUTER_API_KEY" := "sk-or-v1-0000" ]}.

(** The instance that [__init__] builds in [an_environ]. *)
Definition an_agent : InvestigativeAgent :=
  {| api_key := "sk-or-v1-0000";
     model := "anthropic/claude-3-opus";
     document_chain :=
       {| template := "Analyze the following document from an investigative perspective, focusing on geopolitical implications: ";
          input_variable := "document" |};
     analysis_chain :=
       {| template := "Based on the document analysis, identify key findings and geopolitical implications. Focus on international relations, political motivations, and historical context: ";
          input_variable := "analysis" |};
     report_chain :=
       {| template := "Generate a detailed investigative report summarizing the findings. Include sections for: Executive Summary, Key Findings, Geopolitical Implications, and Areas for Further Investigation: ";
          input_variable := "findings" |};
     tools := ["document_analyzer"; "connection_finder"; "report_generator"] |}.

Definition doc_a : string := "https://archive.example/a.pdf".
Definition doc_b : string := "https://archive.example/b.pdf".
Definition doc_c : string := "https://archive.example/c.pdf".
Definition doc_d : string := "https://archive.example/d.pdf".
Definition doc_missing : string := "https://archive.example/missing.pdf".

Definition seven_urls : list string :=
  [doc_a; doc_missing; doc_b; doc_missing; doc_missing; doc_missing; doc_c].

(** ** The entry point and further readings of a run *)

(** [str(value)] for what [process_batch] returns: a [str] is itself, a
    dict of [str] is written with the [repr] of its keys and values. *)
Definition py_str (W : World) (value : py_value) : string :=
  match value with
  | PyStr s => s
  | PyDict items =>
      "{" +:+
      String.concat ", "
        (map (fun item => repr W item.1 +:+ ": " +:+ repr W item.2) items)
      +:+ "}"
  end.

(** The URLs that [main] processes (lines 163-167). *)
Definition main_urls : list string :=
  ["https://www.archives.gov/files/research/jfk/releases/2025/0318/104-10003-10041.pdf";
   "https://www.archives.gov/files/research/jfk/releases/2025/0318/104-10004-10143.pdf";
   "https://www.archives.gov/files/research/jfk/releases/2025/0318/104-10004-10156.pdf"].

(** [main] (lines 157-170): the instance is built from the environment,
    the three URLs are processed, the result is printed. *)
Definition main (W : World) (env : environ) : M unit :=
  run investigator <- (fun _ => (__init__ W env, [])) ;;
  let pdf_urls := main_urls in
  run report <- process_batch W investigator pdf_urls ;;
  act emit (Print (py_str W report)) ;;
  ret tt.

Definition fetch_pdf_calls (w : trace) : list string :=
  omap (fun ev => match ev with Call_fetch_pdf u => Some u | _ => None end) w.

Definition http_gets (w : trace) : list string :=
  omap (fun ev => match ev with Http_get u => Some u | _ => None end) w.

Definition llm_prompts (w : trace) : list string :=
  omap (fun ev => match ev with Llm_arun p => Some p | _ => None end) w.

Definition printed (w : trace) : list string :=
  omap (fun ev => match ev with Print l => Some l | _ => None end) w.

(** The prompt that [find_connections] gives the agent for [documents]. *)
Definition prompt_of (documents : list string) : string :=
  connections_prompt (String.concat (LF +:+ LF) documents).

(** * Properties *)

(** ** The monad *)

Lemma bind_ok {A B} (m : M A) (f : A -> M B) h a w :
  m h = (inr a, w) ->
  bind m f h = (fst (f a (h ++ w)), w ++ snd (f a (h ++ w))).
Proof. intros E. unfold bind. rewrite E. by destruct (f a (h ++ w)). Qed.

Lemma bind_raise {A B} (m : M A) (f : A -> M B) h e w :
  m h = (inl e, w) -> bind m f h = (inl e, w).
Proof. intros E. unfold bind. by rewrite E. Qed.

Lemma for_each_cons {A S} (x : A) xs (body : A -> S -> M S) s h :
  for_each (x :: xs) body s h = bind (body x s) (for_each xs body) h.
Proof. reflexivity. Qed.

Lemma for_each_map {A B S} (f : A -> B) xs (body : B -> S -> M S) s h :
  for_each (map f xs) body s h = for_each xs (fun x => body (f x)) s h.
Proof.
  revert s h. induction xs as [|x xs IH]; intros s h; [reflexivity|].
  cbn [map]. rewrite !for_each_cons. unfold bind.
  destruct (body (f x) s h) as [[e|s'] w]; [reflexivity|].
  by rewrite IH.
Qed.

(** ** Batches *)

Section Partition.

Context {A : Type}.
Implicit Types (l : list A) (fuel from k : nat).

Lemma slice_three l i : slice l i (i + 3) = take 3 (drop i l).
Proof. unfold slice. replace (i + 3 - i) with 3 by lia. reflexivity. Qed.

Lemma range_from_lookup fuel from stop k i :
  range_from fuel from stop 3 !! k = Some i -> i = from + 3 * k /\ i < stop.
Proof.
  revert from k.
  induction fuel as [|fuel IH]; intros from k; cbn [range_from].
  - by destruct k.
  - destruct (Nat.ltb_spec from stop) as [Hlt|Hge]; cbn; [|by destruct k].
    destruct k as [|k]; cbn.
    + intros [= <-]. lia.
    + intros Hk. apply IH in Hk. lia.
Qed.

Lemma range_from_length fuel from stop :
  stop - from <= fuel ->
  stop - from <= 3 * length (range_from fuel from stop 3) < stop - from + 3.
Proof.
  revert from.
  induction fuel as [|fuel IH]; intros from Hfuel; cbn [range_from length].
  - lia.
  - destruct (Nat.ltb_spec from stop) as [Hlt|Hge]; cbn [length]; [|lia].
    specialize (IH (from + 3)). lia.
Qed.

Lemma concat_slices fuel from l :
  length l - from <= fuel ->
  concat (map (fun i => slice l i (i + 3))
              (range_from fuel from (length l) 3)) = drop from l.
Proof.
  revert from.
  induction fuel as [|fuel IH]; intros from Hfuel;
    cbn [range_from map concat].
  - symmetry. apply drop_ge. lia.
  - destruct (Nat.ltb_spec from (length l)) as [Hlt|Hge]; cbn [map concat].
    + rewrite IH by lia. rewrite slice_three.
      rewrite <- (drop_drop l 3 from). apply take_drop.
    + symmetry. by apply drop_ge.
Qed.

End Partition.

Lemma batches_lookup (pdf_urls : list string) k batch :
  batches pdf_urls !! k = Some batch ->
  batch = take 3 (drop (3 * k) pdf_urls) /\ 3 * k < length pdf_urls.
Proof.
  unfold batches, range.
  generalize (length pdf_urls) at 1 as fuel.
  intros fuel H.
  change (map ?f ?l) with (f <$> l) in H.
  rewrite list_lookup_fmap in H.
  destruct (range_from _ _ _ _ !! k) as [i|] eqn:Hi; [|done].
  apply range_from_lookup in Hi as [-> Hlt].
  cbn [fmap option_fmap option_map] in H.
  injection H as <-. by rewrite slice_three.
Qed.

Lemma batches_length (pdf_urls : list string) :
  length pdf_urls <= 3 * length (batches pdf_urls) < length pdf_urls + 3.
Proof.
  unfold batches, range. rewrite length_map.
  pose proof (range_from_length (length pdf_urls) 0 (length pdf_urls)). lia.
Qed.

(** C1. [process_batch] goes through [batches pdf_urls]; for an input of
    length n there are ceil(n/3) of them, the quotient of n + 2 by 3, which
    is the one number k with n <= 3k < n + 3; each holds between one and
    three URLs, every batch but the last holds three, and put end to end in
    order they give the input back. *)
Theorem process_batch_partitions (W : World) (self : InvestigativeAgent)
        (pdf_urls : list string) :
  (forall h,
      process_batch W self pdf_urls h =
      (run findings <- for_each (batches pdf_urls) (batch_step W self) [] ;;
       match findings with
       | _ :: _ =>
           run report <- generate_report W self findings ;; ret (PyStr report)
       | [] => ret error_marker
       end) h) /\
  length (batches pdf_urls) = (length pdf_urls + 2) / 3 /\
  length pdf_urls <= 3 * length (batches pdf_urls) < length pdf_urls + 3 /\
  Forall (fun batch => 1 <= length batch <= 3) (batches pdf_urls) /\
  (forall k batch,
      batches pdf_urls !! k = Some batch ->
      S k < length (batches pdf_urls) -> length batch = 3) /\
  concat (batches pdf_urls) = pdf_urls.
Proof.
  pose proof (batches_length pdf_urls) as Hlen.
  repeat split; try lia.
  - intros h. unfold process_batch, batches, bind.
    by rewrite for_each_map.
  - apply (Nat.div_unique _ 3 _ (length pdf_urls + 2
                                  - 3 * length (batches pdf_urls))); lia.
  - apply Forall_lookup_2. intros k batch Hk.
    apply batches_lookup in Hk as [-> Hlt].
    rewrite length_take, length_drop. lia.
  - intros k batch Hk Hnext.
    apply batches_lookup in Hk as [-> Hlt].
    rewrite length_take, length_drop. lia.
  - unfold batches, range. by rewrite concat_slices, drop_0 by lia.
Qed.

(** C10. On the empty list [process_batch] returns the error marker and
    adds no event at all: no fetch, no analysis, no call of the Connection
    Finder, no report. *)
Theorem process_batch_empty (W : World) (self : InvestigativeAgent)
        (h : trace) :
  process_batch W self [] h = (inr error_marker, []) /\
  error_marker =
    PyDict [("error", "No documents were successfully processed")].
Proof. split; reflexivity. Qed.

(** ** Strings *)

Lemma append_nil_r (s : string) : s +:+ "" = s.
Proof.
  induction s as [|c s IH]; [reflexivity|].
  change (String c s +:+ "") with (String c (s +:+ "")). by rewrite IH.
Qed.

Lemma append_assoc (s1 s2 s3 : string) : (s1 +:+ s2) +:+ s3 = s1 +:+ s2 +:+ s3.
Proof.
  induction s1 as [|c s1 IH]; [reflexivity|].
  change ((String c s1 +:+ s2) +:+ s3) with (String c ((s1 +:+ s2) +:+ s3)).
  change (String c s1 +:+ s2 +:+ s3) with (String c (s1 +:+ s2 +:+ s3)).
  by rewrite IH.
Qed.

Lemma concat_empty_cons (t : string) (ts : list string) :
  String.concat "" (t :: ts) = t +:+ String.concat "" ts.
Proof.
  destruct ts as [|t' ts]; [symmetry; apply append_nil_r|reflexivity].
Qed.

Lemma foldr_append_concat (ts : list string) :
  foldr String.append "" ts = String.concat "" ts.
Proof.
  induction ts as [|t ts IH]; [reflexivity|].
  rewrite concat_empty_cons. cbn [foldr]. by rewrite IH.
Qed.

Lemma contains_suffix (prefix s : string) : contains s (prefix +:+ s).
Proof. exists prefix, "". by rewrite append_nil_r. Qed.

(** ** Fetching and extracting *)

Create HintDb run_ops.
#[local] Hint Unfold bind ret raise emit external lift try_except : run_ops.

Ltac run_unfold := autounfold with run_ops; cbn [fst snd app].

Section Fetch.

Variable W : World.

(** The loop over the pages: all the texts when every page gives one. *)
Lemma pages_all_extracted (texts : list string) (text : string) h :
  for_each (map inr texts)
    (fun (page : string + string) text =>
       run page_text <- lift page ;; ret (text +:+ page_text))
    text h
  = (inr (text +:+ String.concat "" texts), []).
Proof.
  revert text h. induction texts as [|t texts IH]; intros text h.
  - cbn. by rewrite append_nil_r.
  - cbn [map]. rewrite for_each_cons. run_unfold.
    rewrite IH, concat_empty_cons. by rewrite append_assoc.
Qed.

(** The loop over the pages stops at the first page that raises. *)
Lemma pages_first_failure (texts : list string) detail rest text h :
  for_each (map inr texts ++ inl detail :: rest)
    (fun (page : string + string) text =>
       run page_text <- lift page ;; ret (text +:+ page_text))
    text h
  = (inl (External detail), []).
Proof.
  revert text h. induction texts as [|t texts IH]; intros text h.
  - reflexivity.
  - cbn [map app]. rewrite for_each_cons. run_unfold. by rewrite IH.
Qed.

Lemma extract_text_ok content texts h :
  PdfReader W content = inr (map inr texts) ->
  extract_text W content h = (inr (String.concat "" texts), []).
Proof.
  intros E. unfold extract_text. run_unfold. rewrite E.
  by rewrite pages_all_extracted.
Qed.

Lemma extract_text_fails content detail h :
  parse_fails W content detail ->
  extract_text W content h = (inl (External detail), []).
Proof.
  intros [E|(texts & rest & E)]; unfold extract_text; run_unfold; rewrite E.
  - reflexivity.
  - by rewrite pages_first_failure.
Qed.

(** [fetch_pdf] once the server has answered. *)
Lemma fetch_pdf_answered url h response :
  http_get W (h ++ [Call_fetch_pdf url]) url = inr response ->
  fetch_pdf W url h =
  (if (status response =? 200)%Z
   then
     match read response with
     | inl msg => inl (External msg)
     | inr pdf_content =>
         match fst (extract_text W pdf_content
                      (h ++ [Call_fetch_pdf url; Http_get url])) with
         | inl e =>
             inl (ExtractFailed
                    ("Failed to extract text from PDF: " +:+ exn_str e))
         | inr text => inr text
         end
     end
   else inl (FetchFailed ("Failed to fetch PDF from " +:+ url)),
   [Call_fetch_pdf url; Http_get url] ++
   (if (status response =? 200)%Z
    then match read response with
         | inl _ => []
         | inr pdf_content =>
             snd (extract_text W pdf_content
                    (h ++ [Call_fetch_pdf url; Http_get url]))
         end
    else [])).
Proof.
  intros E. unfold fetch_pdf. run_unfold. rewrite E.
  destruct (status response =? 200)%Z; cbn [negb]; [|reflexivity].
  destruct (read response) as [msg|pdf_content]; [reflexivity|].
  rewrite <- !app_assoc. cbn [app].
  destruct (extract_text W pdf_content _) as [[e|text] w]; cbn;
    by rewrite ?app_nil_r.
Qed.

End Fetch.

(** C5, as the code has it.  Once the server has answered, [fetch_pdf]
    fails with the fetch error, whose text names the URL, exactly when the
    status is not 200; on a status 200 it goes on to read and parse the body
    and raises no fetch error. *)
Theorem fetch_pdf_fails_unless_200 (W : World) (url : string) (h : trace)
        (response : Response) :
  http_get W (h ++ [Call_fetch_pdf url]) url = inr response ->
  ((exists msg, fst (fetch_pdf W url h) = inl (FetchFailed msg)) <->
   status response <> 200%Z) /\
  (status response <> 200%Z ->
   fetch_pdf W url h =
   (inl (FetchFailed ("Failed to fetch PDF from " +:+ url)),
    [Call_fetch_pdf url; Http_get url])).
Proof.
  intros E. rewrite (fetch_pdf_answered W url h response E).
  destruct (Z.eqb_spec (status response) 200) as [Heq|Hne]; cbn [fst].
  - split; [|done]. split; [|done].
    intros [msg Hmsg]. destruct (read response) as [?|content]; [done|].
    by destruct (fst (extract_text W content _)).
  - split; [|done]. split; [done|]. intros _. by eexists.
Qed.

Lemma fetch_pdf_fails_unless_200_witness :
  (exists msg,
      fst (fetch_pdf not_found_world doc_a []) = inl (FetchFailed msg)) <->
  404%Z <> 200%Z.
Proof.
  apply (fetch_pdf_fails_unless_200 not_found_world doc_a []
           {| status := 404; read := inr [x25; x50; x44; x46] |}).
  reflexivity.
Defined.

(** C5 as the spec words it does not hold: a 204 answer is a 2xx answer,
    and [fetch_pdf] fails on it with the fetch error. *)
Lemma fetch_pdf_rejects_204 :
  ~ (forall (W : World) (url : string) (h : trace) (response : Response),
        http_get W (h ++ [Call_fetch_pdf url]) url = inr response ->
        ((exists msg, fst (fetch_pdf W url h) = inl (FetchFailed msg)) <->
         ~ (200 <= status response < 300)%Z)).
Proof.
  intros claim.
  destruct (claim no_content_world doc_a []
              {| status := 204; read := inr [x25; x50; x44; x46] |}
              eq_refl) as [Hfail _].
  apply Hfail; [|cbn; lia]. by eexists.
Qed.

(** C7. When the body of a 200 answer does not parse, [fetch_pdf] fails
    with the extraction error, and the text of the exception of the parser
    is in its message, after the fixed prefix. *)
Theorem extraction_error_keeps_detail (W : World) (url : string) (h : trace)
        (response : Response) (content : list Byte.byte) (detail : string) :
  http_get W (h ++ [Call_fetch_pdf url]) url = inr response ->
  status response = 200%Z ->
  read response = inr content ->
  parse_fails W content detail ->
  exists msg,
    fetch_pdf W url h =
      (inl (ExtractFailed msg), [Call_fetch_pdf url; Http_get url]) /\
    msg = "Failed to extract text from PDF: " +:+ detail /\
    contains detail msg.
Proof.
  intros E Hstatus Hread Hparse.
  rewrite (fetch_pdf_answered W url h response E), Hstatus, Hread.
  rewrite (extract_text_fails W content detail _ Hparse). cbn.
  eexists. split; [reflexivity|]. split; [reflexivity|].
  apply contains_suffix.
Qed.

Lemma extraction_error_keeps_detail_witness :
  exists msg,
    fetch_pdf corrupt_pdf_world doc_a [] =
      (inl (ExtractFailed msg), [Call_fetch_pdf doc_a; Http_get doc_a]) /\
    msg = "Failed to extract text from PDF: EOF marker not found" /\
    contains "EOF marker not found" msg.
Proof.
  apply (extraction_error_keeps_detail corrupt_pdf_world doc_a []
           {| status := 200; read := inr [x25; x50; x44; x46] |}
           [x25; x50; x44; x46] "EOF marker not found").
  - reflexivity.
  - reflexivity.
  - reflexivity.
  - left. reflexivity.
Defined.

(** C8. When the body of a 200 answer parses and every page gives its
    text, [fetch_pdf] returns the texts of the pages put end to end in the
    order of the pages, with nothing between them; without pages it returns
    the empty string. *)
Theorem extracted_text_is_pages_in_order (W : World) (url : string)
        (h : trace) (response : Response) (content : list Byte.byte)
        (texts : list string) :
  http_get W (h ++ [Call_fetch_pdf url]) url = inr response ->
  status response = 200%Z ->
  read response = inr content ->
  PdfReader W content = inr (map inr texts) ->
  fetch_pdf W url h =
    (inr (foldr String.append "" texts), [Call_fetch_pdf url; Http_get url]) /\
  foldr String.append "" texts = String.concat "" texts /\
  (texts = [] -> fst (fetch_pdf W url h) = inr "").
Proof.
  intros E Hstatus Hread Hpages.
  rewrite (fetch_pdf_answered W url h response E), Hstatus, Hread.
  rewrite (extract_text_ok W content texts _ Hpages). cbn.
  rewrite foldr_append_concat. split; [reflexivity|]. split; [reflexivity|].
  by intros ->.
Qed.

Lemma extracted_text_is_pages_in_order_witness :
  fetch_pdf healthy_world doc_a [] =
    (inr "page one.page two.", [Call_fetch_pdf doc_a; Http_get doc_a]).
Proof.
  apply (extracted_text_is_pages_in_order healthy_world doc_a []
           {| status := 200; read := inr [x25; x50; x44; x46] |}
           [x25; x50; x44; x46] ["page one."; "page two."]);
    reflexivity.
Defined.

(** ** Construction *)

Lemma truthy_false (s : string) : truthy s = false <-> s = "".
Proof. by destruct s. Qed.

(** C9. The constructor raises its [ValueError] exactly when
    [OPENROUTER_API_KEY] is not in the environment or is the empty string.
    With a key that is not empty the outcome is that of the library
    constructors, and the instance, when there is one, holds the key. *)
Theorem init_fails_without_api_key (W : World) (env : environ) :
  ((exists msg, __init__ W env = inl (ValueError msg)) <->
   (getenv env "OPENROUTER_API_KEY" = None \/
    getenv env "OPENROUTER_API_KEY" = Some "")) /\
  (forall msg,
      __init__ W env = inl (ValueError msg) ->
      msg = "OPENROUTER_API_KEY environment variable not set") /\
  (forall key,
      getenv env "OPENROUTER_API_KEY" = Some key -> key <> "" ->
      match libraries W key with
      | Some msg => __init__ W env = inl (External msg)
      | None =>
          exists self, __init__ W env = inr self /\ api_key self = key
      end).
Proof.
  unfold __init__.
  destruct (getenv env "OPENROUTER_API_KEY") as [key|] eqn:Hkey.
  - destruct (truthy key) eqn:Htruthy; cbn [negb].
    + assert (key <> "") as Hne by (intros ->; discriminate).
      split; [|split].
      * split; [|intros [?|[= ?]]; done].
        intros [msg Hmsg]. by destruct (libraries W key).
      * intros msg Hmsg. by destruct (libraries W key).
      * intros key' [= <-] _. destruct (libraries W key); [done|].
        by eexists.
    + apply truthy_false in Htruthy as ->.
      split; [|split].
      * split; [by right|by eexists].
      * by intros msg [= <-].
      * by intros key' [= <-] Hne.
  - split; [|split].
    + split; [by left|by eexists].
    + by intros msg [= <-].
    + done.
Qed.

(** ** The documents of a batch *)

Lemma document_events_calls (w : trace) :
  Forall document_event w ->
  find_connections_calls w = [] /\ generate_report_calls w = [] /\
  agent_prompts w = [].
Proof.
  induction 1 as [|ev w Hev _ IH]; [done|].
  destruct IH as (IH1 & IH2 & IH3).
  unfold find_connections_calls, generate_report_calls, agent_prompts in *.
  cbn [omap list_omap]. rewrite IH1, IH2, IH3. by destruct ev.
Qed.

Section Documents.

Variable W : World.
Variable self : InvestigativeAgent.

Lemma page_loop_silent (pages : list (string + string)) (text : string) h :
  snd (for_each pages
         (fun page text =>
            run page_text <- lift page ;; ret (text +:+ page_text))
         text h) = [].
Proof.
  revert text h. induction pages as [|page pages IH]; intros text h;
    [reflexivity|].
  rewrite for_each_cons. unfold bind at 1.
  destruct page as [msg|page_text]; [reflexivity|].
  run_unfold.
  match goal with
  | |- context [for_each pages ?body ?t ?h0] =>
      pose proof (IH t h0) as IH';
      destruct (for_each pages body t h0) as [r w] eqn:E
  end.
  change (snd (r, w) = []). rewrite <- E. exact IH'.
Qed.

Lemma extract_text_silent content h : snd (extract_text W content h) = [].
Proof.
  unfold extract_text. unfold bind at 1, lift at 1.
  destruct (PdfReader W content) as [msg|pages]; [reflexivity|].
  pose proof (page_loop_silent pages "" (h ++ [])) as Hloop.
  destruct (for_each pages _ _ _) as [r w]. exact Hloop.
Qed.

Lemma fetch_pdf_events url h : Forall document_event (snd (fetch_pdf W url h)).
Proof.
  destruct (http_get W (h ++ [Call_fetch_pdf url]) url) as [msg|response] eqn:E.
  - unfold fetch_pdf. run_unfold. rewrite E. by repeat constructor.
  - rewrite (fetch_pdf_answered W url h response E). cbn [snd].
    destruct (status response =? 200)%Z; [|by repeat constructor].
    destruct (read response) as [msg|content]; [by repeat constructor|].
    rewrite extract_text_silent. by repeat constructor.
Qed.

Lemma analyze_document_events text h :
  Forall document_event (snd (analyze_document W self text h)).
Proof.
  unfold analyze_document, arun. run_unfold.
  destruct (llm W _ _) as [msg|analysis]; [by repeat constructor|].
  by repeat constructor.
Qed.

Lemma attempt_events url h :
  Forall document_event (snd (attempt W self url h)).
Proof.
  unfold attempt, bind.
  pose proof (fetch_pdf_events url h) as Hfetch.
  destruct (fetch_pdf W url h) as [[e|text] w]; [exact Hfetch|].
  pose proof (analyze_document_events text (h ++ w)) as Hanalyze.
  destruct (analyze_document W self text (h ++ w)) as [r w'].
  apply Forall_app. by split.
Qed.

(** One round of the loop over the URLs, read on the outcome of the
    attempt: the analysis is appended, or the diagnostic is printed and the
    results are left as they were. *)
Lemma url_round_attempt url (results : list string) h :
  url_round W self url results h =
  match attempt W self url h with
  | (inr analysis, w) => (inr (results ++ [analysis]), w)
  | (inl e, w) => (inr results, w ++ [Print (diagnostic url e)])
  end.
Proof.
  unfold url_round, attempt. run_unfold.
  destruct (fetch_pdf W url h) as [[e|text] w]; [reflexivity|].
  destruct (analyze_document W self text (h ++ w)) as [[e|analysis] w'];
    by rewrite ?app_nil_r.
Qed.

(** The loop over the URLs gives the analyses of the documents that
    succeeded, after the results it started from, and never raises. *)
Lemma url_loop_outcomes batch (results : list string) h :
  for_each batch (url_round W self) results h =
  (inr (results ++ successes (fst (outcomes W self batch h))),
   snd (outcomes W self batch h)).
Proof.
  revert results h. induction batch as [|url rest IH]; intros results h.
  - cbn. by rewrite app_nil_r.
  - rewrite for_each_cons. unfold bind. rewrite url_round_attempt.
    cbn [outcomes].
    destruct (attempt W self url h) as [[e|analysis] w].
    + rewrite IH. by destruct (outcomes W self rest _).
    + rewrite IH. destruct (outcomes W self rest _). cbn.
      by rewrite <- app_assoc.
Qed.

Lemma outcomes_events batch h :
  Forall document_event (snd (outcomes W self batch h)).
Proof.
  revert h. induction batch as [|url rest IH]; intros h; [constructor|].
  cbn [outcomes]. pose proof (attempt_events url h) as Hattempt.
  destruct (attempt W self url h) as [o w]. cbn [snd] in Hattempt.
  match goal with
  | |- context [outcomes W self rest ?h'] =>
      specialize (IH h'); destruct (outcomes W self rest h') as [os w2]
  end.
  cbn [snd] in *. apply Forall_app. split; [|exact IH].
  destruct o; [apply Forall_app; split; [done|by repeat constructor]|done].
Qed.

Lemma outcomes_length batch h :
  length (fst (outcomes W self batch h)) = length batch.
Proof.
  revert h. induction batch as [|url rest IH]; intros h; [reflexivity|].
  cbn [outcomes]. destruct (attempt W self url h) as [o w].
  match goal with
  | |- context [outcomes W self rest ?h'] =>
      specialize (IH h'); destruct (outcomes W self rest h') as [os w2]
  end.
  cbn in *. by rewrite IH.
Qed.

End Documents.

(** ** The batches of a run *)

Lemma successes_nil (os : list outcome) :
  successes os = [] <-> Forall failed os.
Proof.
  unfold successes. induction os as [|[e|a] os IH]; cbn.
  - split; [constructor|done].
  - rewrite IH. split; [by constructor|by inversion 1].
  - split; [done|]. by inversion 1.
Qed.

Lemma successes_cons (os : list outcome) :
  successes os <> [] <-> Exists succeeded os.
Proof.
  unfold successes. induction os as [|[e|a] os IH]; cbn.
  - split; [done|by inversion 1].
  - rewrite IH. split; [by right|]. by inversion 1.
  - split; [by left|done].
Qed.

Section Batches.

Variable W : World.
Variable self : InvestigativeAgent.

Lemma find_connections_run documents h :
  find_connections W documents h =
  (match agent W (h ++ [Call_find_connections documents])
           (connections_prompt (String.concat (LF +:+ LF) documents)) with
   | inl msg => inl (External msg)
   | inr reply => inr reply
   end,
   [Call_find_connections documents;
    Agent_arun (connections_prompt (String.concat (LF +:+ LF) documents))]).
Proof.
  unfold find_connections, str_doc. run_unfold. by rewrite map_id.
Qed.

Lemma generate_report_run findings h :
  generate_report W self findings h =
  (match llm W (h ++ [Call_generate_report findings])
           (format (report_chain self)
              (String.concat (LF +:+ LF) (map (str_finding W) findings))) with
   | inl msg => inl (External msg)
   | inr report => inr report
   end,
   [Call_generate_report findings;
    Llm_arun (format (report_chain self)
                (String.concat (LF +:+ LF) (map (str_finding W) findings)))]).
Proof. reflexivity. Qed.

(** What is done with a batch, read on the outcomes of its documents. *)
Lemma batch_step_outcomes batch findings h :
  batch_step W self batch findings h =
  let '(os, w) := outcomes W self batch h in
  match successes os with
  | [] => (inr findings, w)
  | _ :: _ =>
      match find_connections W (successes os) (h ++ w) with
      | (inl e, wc) => (inl e, w ++ wc)
      | (inr reply, wc) =>
          (inr (findings ++ [Finding (successes os) reply]), w ++ wc)
      end
  end.
Proof.
  unfold batch_step. unfold bind at 1. rewrite url_loop_outcomes.
  destruct (outcomes W self batch h) as [os w]. cbn [fst snd app].
  destruct (successes os) as [|analysis analyses]; cbn [app].
  - run_unfold. by rewrite app_nil_r.
  - unfold bind.
    destruct (find_connections W _ _) as [[e|reply] wc]; [reflexivity|].
    cbn. by rewrite app_nil_r.
Qed.

(** The loop over the batches against the survey of the run: the same
    events, no call of [generate_report]; it raises what the Connection
    Finder raised, and otherwise appends one finding for each batch that
    had a success. *)
Lemma batch_loop_survey bs findings h :
  let '(oss, stop, w) := survey W self bs h in
  snd (for_each bs (batch_step W self) findings h) = w /\
  generate_report_calls w = [] /\
  match stop with
  | Some e => fst (for_each bs (batch_step W self) findings h) = inl e
  | None =>
      length oss = length bs /\
      exists new,
        fst (for_each bs (batch_step W self) findings h)
        = inr (findings ++ new) /\
        length new = length (filter (Exists succeeded) oss)
  end.
Proof.
  revert findings h. induction bs as [|batch bs IH]; intros findings h.
  - cbn. repeat split. exists []. by rewrite app_nil_r.
  - rewrite for_each_cons. unfold bind. rewrite batch_step_outcomes.
    cbn [survey].
    pose proof (outcomes_events W self batch h) as Hevents.
    destruct (outcomes W self batch h) as [os w]. cbn [snd] in Hevents.
    apply document_events_calls in Hevents as (_ & Hreport & _).
    pose proof (successes_cons os) as Hsome.
    pose proof (successes_nil os) as Hnone.
    destruct (successes os) as [|analysis analyses] eqn:Hs.
    + specialize (IH findings (h ++ w)).
      destruct (survey W self bs (h ++ w)) as [[oss stop] w'].
      destruct (for_each bs _ _ _) as [r wr]. cbn [fst snd] in *.
      destruct IH as (-> & Hreport' & IH).
      split; [done|]. split.
      { unfold generate_report_calls in *. by rewrite omap_app, Hreport, Hreport'. }
      destruct stop as [e|]; [done|].
      destruct IH as (Hlen & new & -> & Hnew).
      split; [cbn; by rewrite Hlen|].
      exists new. split; [done|].
      rewrite filter_cons_False; [done|].
      rewrite <- Hsome. tauto.
    + rewrite find_connections_run.
      destruct (agent W _ _) as [msg|reply].
      * cbn. repeat split.
        unfold generate_report_calls in *. by rewrite omap_app, Hreport.
      * match goal with
        | |- context [for_each bs _ ?f ?h'] =>
            specialize (IH f h')
        end.
        destruct (survey W self bs _) as [[oss stop] w'].
        destruct (for_each bs _ _ _) as [r wr]. cbn [fst snd] in *.
        destruct IH as (-> & Hreport' & IH).
        split; [by rewrite <- app_assoc|]. split.
        { unfold generate_report_calls in *.
          by rewrite !omap_app, Hreport, Hreport'. }
        destruct stop as [e|]; [done|].
        destruct IH as (Hlen & new & -> & Hnew).
        split; [cbn; by rewrite Hlen|].
        exists (Finding (analysis :: analyses) reply :: new).
        split; [by rewrite <- app_assoc|].
        rewrite filter_cons_True; [cbn; by rewrite Hnew|].
        rewrite <- Hsome. done.
Qed.

(** When no document succeeds the loop over the batches goes through all
    of them, calls neither the Connection Finder nor the agent, and leaves
    the findings as they were. *)
Lemma batch_loop_all_failed bs findings h :
  let '(oss, stop, w) := survey W self bs h in
  Forall (Forall failed) oss ->
  stop = None /\ length oss = length bs /\
  for_each bs (batch_step W self) findings h = (inr findings, w) /\
  find_connections_calls w = [] /\ agent_prompts w = [].
Proof.
  revert h. induction bs as [|batch bs IH]; intros h.
  - cbn. done.
  - rewrite for_each_cons. unfold bind. rewrite batch_step_outcomes.
    cbn [survey].
    pose proof (outcomes_events W self batch h) as Hevents.
    destruct (outcomes W self batch h) as [os w]. cbn [snd] in Hevents.
    apply document_events_calls in Hevents as (Hfind & _ & Hprompts).
    pose proof (successes_nil os) as Hnone.
    destruct (successes os) as [|analysis analyses] eqn:Hs.
    + specialize (IH (h ++ w)).
      destruct (survey W self bs (h ++ w)) as [[oss stop] w'].
      intros Hall. apply Forall_cons in Hall as [_ Hall].
      destruct (IH Hall) as (-> & Hlen & -> & Hfind' & Hprompts').
      repeat split; [cbn; by rewrite Hlen| |].
      * unfold find_connections_calls in *. by rewrite omap_app, Hfind, Hfind'.
      * unfold agent_prompts in *. by rewrite omap_app, Hprompts, Hprompts'.
    + assert (~ Forall failed os) as Hsome by (rewrite <- Hnone; done).
      destruct (find_connections W _ _) as [[e|reply] wc].
      * intros Hall. by apply Forall_cons in Hall as [? _].
      * destruct (survey W self bs _) as [[oss stop] w'].
        intros Hall. by apply Forall_cons in Hall as [? _].
Qed.

End Batches.

(** ** The orchestrator *)

Lemma process_batch_batches (W : World) (self : InvestigativeAgent)
      (pdf_urls : list string) h :
  process_batch W self pdf_urls h =
  match for_each (batches pdf_urls) (batch_step W self) [] h with
  | (inl e, w) => (inl e, w)
  | (inr [], w) => (inr error_marker, w)
  | (inr findings, w) =>
      (match fst (generate_report W self findings (h ++ w)) with
       | inl e => inl e
       | inr report => inr (PyStr report)
       end,
       w ++ snd (generate_report W self findings (h ++ w)))
  end.
Proof.
  unfold process_batch, batches. unfold bind at 1. rewrite for_each_map.
  change (fun i => batch_round W self pdf_urls i)
    with (fun i => batch_step W self (slice pdf_urls i (i + 3))).
  destruct (for_each _ _ _ _) as [[e|[|finding findings]] w]; [reflexivity| |].
  - run_unfold. by rewrite app_nil_r.
  - unfold bind. destruct (generate_report W self _ _) as [[e|report] w'];
      cbn; by rewrite ?app_nil_r.
Qed.

(** C4. When the fetch, the extraction or the analysis of a URL raises,
    its round of the loop ends normally: the results are the ones it started
    with, so the document is not among them, and the diagnostic line is
    printed after the events of the attempt.  The loop goes on with the URLs
    that follow, from these results, and the loop itself never raises. *)
Theorem failed_url_is_skipped (W : World) (self : InvestigativeAgent)
        (url : string) (rest : list string) (results : list string)
        (h : trace) (e : exn) (w : trace) :
  attempt W self url h = (inl e, w) ->
  let line := Print ("Error processing document " +:+ url +:+ ": " +:+ exn_str e) in
  let following := for_each rest (url_round W self) results (h ++ w ++ [line]) in
  url_round W self url results h = (inr results, w ++ [line]) /\
  for_each (url :: rest) (url_round W self) results h =
    (fst following, w ++ [line] ++ snd following) /\
  exists final,
    fst (for_each (url :: rest) (url_round W self) results h) = inr final.
Proof.
  intros Hattempt line following.
  assert (url_round W self url results h = (inr results, w ++ [line])) as Hround.
  { by rewrite url_round_attempt, Hattempt. }
  split; [exact Hround|]. split.
  - rewrite for_each_cons. rewrite (bind_ok _ _ _ _ _ Hround).
    by rewrite <- !app_assoc.
  - rewrite url_loop_outcomes. by eexists.
Qed.

Lemma failed_url_is_skipped_witness :
  fst (for_each [doc_missing; doc_b] (url_round healthy_world an_agent)
         ["first"] [])
  = inr ["first"; "completion 7"].
Proof.
  destruct (failed_url_is_skipped healthy_world an_agent doc_missing [doc_b]
              ["first"] []
              (FetchFailed
                 "Failed to fetch PDF from https://archive.example/missing.pdf")
              [Call_fetch_pdf doc_missing; Http_get doc_missing])
    as (_ & Hloop & _).
  - reflexivity.
  - rewrite Hloop. vm_compute. reflexivity.
Defined.

(** C6. For a batch in which a document succeeds, [process_batch] calls
    [find_connections] once, after the documents, on the analyses of the
    documents that succeeded in the order of the batch; the agent is asked
    once, and its prompt ends with these analyses joined by two line
    feeds. *)
Theorem connections_found_once_per_batch (W : World)
        (self : InvestigativeAgent) (batch : list string)
        (findings : list finding) (h : trace)
        (os : list outcome) (w : trace) :
  outcomes W self batch h = (os, w) ->
  Exists succeeded os ->
  let analyses := successes os in
  let joined := String.concat (LF +:+ LF) analyses in
  let prompt :=
    "Analyze these documents and identify connections, patterns, and relationships between them: "
    +:+ joined in
  length os = length batch /\
  snd (batch_step W self batch findings h) =
    w ++ [Call_find_connections analyses; Agent_arun prompt] /\
  find_connections_calls (snd (batch_step W self batch findings h))
    = [analyses] /\
  agent_prompts (snd (batch_step W self batch findings h)) = [prompt].
Proof.
  intros Hos Hsome analyses joined prompt.
  pose proof (outcomes_length W self batch h) as Hlen.
  pose proof (outcomes_events W self batch h) as Hevents.
  rewrite Hos in Hlen, Hevents. cbn [fst snd] in Hlen, Hevents.
  apply document_events_calls in Hevents as (Hfind & _ & Hprompts).
  assert (snd (batch_step W self batch findings h) =
          w ++ [Call_find_connections analyses; Agent_arun prompt]) as Hrun.
  { rewrite batch_step_outcomes, Hos.
    apply successes_cons in Hsome. subst analyses.
    destruct (successes os) as [|analysis rest] eqn:Hs; [done|].
    rewrite find_connections_run. by destruct (agent W _ _). }
  split; [exact Hlen|]. split; [exact Hrun|]. rewrite Hrun.
  unfold find_connections_calls, agent_prompts in *.
  rewrite !omap_app, Hfind, Hprompts. by split.
Qed.

Lemma connections_found_once_per_batch_witness :
  find_connections_calls
    (snd (batch_step healthy_world an_agent [doc_a; doc_missing; doc_b] [] []))
  = [["completion 4"; "completion 12"]].
Proof.
  destruct (connections_found_once_per_batch healthy_world an_agent
              [doc_a; doc_missing; doc_b] [] []
              (fst (outcomes healthy_world an_agent
                      [doc_a; doc_missing; doc_b] []))
              (snd (outcomes healthy_world an_agent
                      [doc_a; doc_missing; doc_b] [])))
    as (_ & _ & Hcalls & _).
  - vm_compute. reflexivity.
  - vm_compute. left. exact I.
  - rewrite Hcalls. vm_compute. reflexivity.
Defined.

(** A batch without a success: no call of the Connection Finder, and the
    findings are left as they were. *)
Lemma batch_without_success_adds_nothing (W : World)
      (self : InvestigativeAgent) (batch : list string)
      (findings : list finding) (h : trace) :
  Forall failed (fst (outcomes W self batch h)) ->
  fst (batch_step W self batch findings h) = inr findings /\
  find_connections_calls (snd (batch_step W self batch findings h)) = [].
Proof.
  intros Hall. rewrite batch_step_outcomes.
  pose proof (outcomes_events W self batch h) as Hevents.
  destruct (outcomes W self batch h) as [os w]. cbn [fst snd] in *.
  apply successes_nil in Hall. rewrite Hall. cbn [fst snd].
  by apply document_events_calls in Hevents as (? & _).
Qed.

(** C2. When every URL of every batch fails, [process_batch] returns the
    error marker and does not raise; every batch has been gone through, and
    among the events there is no call of [find_connections], no prompt to
    the agent and no call of [generate_report]. *)
Theorem all_failed_returns_error_marker (W : World)
        (self : InvestigativeAgent) (pdf_urls : list string) (h : trace)
        (oss : list (list outcome)) (stop : option exn) (w : trace) :
  survey W self (batches pdf_urls) h = (oss, stop, w) ->
  Forall (Forall failed) oss ->
  process_batch W self pdf_urls h =
    (inr (PyDict [("error", "No documents were successfully processed")]), w) /\
  find_connections_calls w = [] /\
  agent_prompts w = [] /\
  generate_report_calls w = [] /\
  stop = None /\ length oss = length (batches pdf_urls).
Proof.
  intros Hsurvey Hall.
  pose proof (batch_loop_all_failed W self (batches pdf_urls) [] h) as Hloop.
  pose proof (batch_loop_survey W self (batches pdf_urls) [] h) as Hgen.
  rewrite Hsurvey in Hloop, Hgen.
  destruct (Hloop Hall) as (-> & Hlen & Hrun & Hfind & Hprompts).
  destruct Hgen as (_ & Hreport & _).
  rewrite process_batch_batches, Hrun. done.
Qed.

Lemma all_failed_returns_error_marker_witness :
  process_batch not_found_world an_agent [doc_a; doc_b; doc_c; doc_d] [] =
  (inr error_marker,
   snd (survey not_found_world an_agent
          (batches [doc_a; doc_b; doc_c; doc_d]) [])).
Proof.
  apply (all_failed_returns_error_marker not_found_world an_agent
           [doc_a; doc_b; doc_c; doc_d] []
           (fst (fst (survey not_found_world an_agent
                        (batches [doc_a; doc_b; doc_c; doc_d]) [])))
           (snd (fst (survey not_found_world an_agent
                        (batches [doc_a; doc_b; doc_c; doc_d]) [])))).
  - reflexivity.
  - vm_compute. repeat constructor.
Defined.

(** C3, as the code has it.  When the run reaches the end of the batches,
    that is when no call of the Connection Finder raised, and a document
    succeeded, [process_batch] calls [generate_report] once, after
    everything else, on a list of findings with one entry for each batch
    that had a success; the outcome of the Report Chain on the text of these
    findings is the outcome of [process_batch]: its text is returned as it
    is, and what it raises is raised. *)
Theorem report_generated_once (W : World) (self : InvestigativeAgent)
        (pdf_urls : list string) (h : trace)
        (oss : list (list outcome)) (w : trace) :
  survey W self (batches pdf_urls) h = (oss, None, w) ->
  Exists (Exists succeeded) oss ->
  exists findings,
    length findings = length (filter (Exists succeeded) oss) /\
    let prompt :=
      format (report_chain self)
        (String.concat (LF +:+ LF) (map (str_finding W) findings)) in
    process_batch W self pdf_urls h =
      (match llm W (h ++ w ++ [Call_generate_report findings]) prompt with
       | inl msg => inl (External msg)
       | inr report => inr (PyStr report)
       end,
       w ++ [Call_generate_report findings; Llm_arun prompt]) /\
    generate_report_calls (snd (process_batch W self pdf_urls h))
      = [findings].
Proof.
  intros Hsurvey Hsome.
  pose proof (batch_loop_survey W self (batches pdf_urls) [] h) as Hloop.
  rewrite Hsurvey in Hloop.
  destruct Hloop as (Hevents & Hreport & Hlen & findings & Hfindings & Hcount).
  cbn [app] in Hfindings.
  assert (findings <> []) as Hne.
  { intros ->. cbn in Hcount. symmetry in Hcount.
    apply length_zero_iff_nil in Hcount.
    apply Exists_exists in Hsome as (os & Hin & Hos).
    assert (os ∈ filter (Exists succeeded) oss) as Hfil
        by (apply list_elem_of_filter; by split).
    rewrite Hcount in Hfil. by apply not_elem_of_nil in Hfil. }
  exists findings. split; [exact Hcount|]. intros prompt.
  assert (process_batch W self pdf_urls h =
          (match llm W (h ++ w ++ [Call_generate_report findings]) prompt with
           | inl msg => inl (External msg)
           | inr report => inr (PyStr report)
           end,
           w ++ [Call_generate_report findings; Llm_arun prompt])) as Hrun.
  { rewrite process_batch_batches.
    destruct (for_each (batches pdf_urls) _ _ _) as [r wr].
    cbn [fst snd] in Hevents, Hfindings. subst r wr.
    destruct findings as [|finding findings]; [done|].
    rewrite generate_report_run. cbn [fst snd].
    rewrite <- app_assoc. subst prompt.
    by destruct (llm W _ _). }
  split; [exact Hrun|]. rewrite Hrun. cbn [snd].
  unfold generate_report_calls in *. by rewrite omap_app, Hreport.
Qed.

Lemma report_generated_once_witness :
  exists findings,
    length findings = 2 /\
    generate_report_calls
      (snd (process_batch healthy_world an_agent seven_urls [])) = [findings].
Proof.
  destruct (report_generated_once healthy_world an_agent seven_urls []
              (fst (fst (survey healthy_world an_agent
                           (batches seven_urls) [])))
              (snd (survey healthy_world an_agent (batches seven_urls) [])))
    as (findings & Hcount & _ & Hcalls).
  - reflexivity.
  - left. left. exact I.
  - exists findings. split; [exact Hcount|exact Hcalls].
Defined.

(** C3 as the spec words it does not hold: with a document that succeeds
    and a Connection Finder that raises, [process_batch] raises and
    [generate_report] is not called. *)
Lemma report_not_generated_when_connection_finder_raises :
  ~ (forall (W : World) (self : InvestigativeAgent) (pdf_urls : list string)
            (h : trace) (oss : list (list outcome)) (stop : option exn)
            (w : trace),
        survey W self (batches pdf_urls) h = (oss, stop, w) ->
        Exists (Exists succeeded) oss ->
        length (generate_report_calls (snd (process_batch W self pdf_urls h)))
        = 1).
Proof.
  intros claim.
  specialize (claim agent_down_world an_agent [doc_a] []
                    (fst (fst (survey agent_down_world an_agent
                                 (batches [doc_a]) [])))
                    (snd (fst (survey agent_down_world an_agent
                                 (batches [doc_a]) [])))
                    (snd (survey agent_down_world an_agent
                            (batches [doc_a]) []))).
  assert (fst (process_batch agent_down_world an_agent [doc_a] [])
          = inl (External "rate limit exceeded")) as Hraises
      by (vm_compute; reflexivity).
  assert (generate_report_calls
            (snd (process_batch agent_down_world an_agent [doc_a] [])) = [])
    as Hcalls by (vm_compute; reflexivity).
  rewrite Hcalls in claim. cbn [length] in claim.
  enough (0 = 1) by done. apply claim.
  - vm_compute. reflexivity.
  - vm_compute. left. left. exact I.
Qed.

(** ** The code at work *)

(** With the key in the environment the constructor builds [an_agent]. *)
Example init_builds_an_agent :
  __init__ healthy_world an_environ = inr an_agent.
Proof. vm_compute. reflexivity. Qed.

Example init_without_key :
  __init__ healthy_world ∅ =
  inl (ValueError "OPENROUTER_API_KEY environment variable not set").
Proof. vm_compute. reflexivity. Qed.

(** Three URLs, the second of which is not found: one batch, one call of
    the Connection Finder on the two analyses, one finding, one report,
    which is the result. *)
Example end_to_end_scenario :
  let result :=
    process_batch healthy_world an_agent [doc_a; doc_missing; doc_b] [] in
  fst result = inr (PyStr "completion 16") /\
  find_connections_calls (snd result) = [["completion 4"; "completion 12"]] /\
  generate_report_calls (snd result) =
    [[Finding ["completion 4"; "completion 12"] "connections"]].
Proof. vm_compute. repeat split; reflexivity. Qed.

(** * Further properties *)

(** ** [fetch_pdf], outcome by outcome *)

Lemma pages_split (pages : list (string + string)) :
  (exists texts, pages = map inr texts) \/
  (exists texts detail rest, pages = map inr texts ++ inl detail :: rest).
Proof.
  induction pages as [|[detail|text] pages IH].
  - left. by exists [].
  - right. by exists [], detail, pages.
  - destruct IH as [(texts & ->)|(texts & detail & rest & ->)].
    + left. by exists (text :: texts).
    + right. by exists (text :: texts), detail, rest.
Qed.

Lemma fetch_pdf_unanswered (W : World) url h msg :
  http_get W (h ++ [Call_fetch_pdf url]) url = inl msg ->
  fetch_pdf W url h = (inl (External msg), [Call_fetch_pdf url; Http_get url]).
Proof. intros E. unfold fetch_pdf. run_unfold. by rewrite E. Qed.

(** The body of the [try], every case: it adds no event; it gives the texts
    of the pages end to end when the stream parses, and raises the exception
    of the parser otherwise. *)
Lemma extract_text_cases (W : World) content h :
  (exists texts,
      PdfReader W content = inr (map inr texts) /\
      extract_text W content h = (inr (String.concat "" texts), [])) \/
  (exists detail,
      parse_fails W content detail /\
      extract_text W content h = (inl (External detail), [])).
Proof.
  destruct (PdfReader W content) as [detail|pages] eqn:E.
  - right. exists detail. split; [by left|].
    apply extract_text_fails. by left.
  - destruct (pages_split pages) as [(texts & ->)|(texts & detail & rest & ->)].
    + left. exists texts. split; [done|]. by apply extract_text_ok.
    + right. exists detail.
      assert (parse_fails W content detail) as Hfail
          by (right; by exists texts, rest).
      split; [done|]. by apply extract_text_fails.
Qed.

Lemma fetch_pdf_trace (W : World) url h :
  snd (fetch_pdf W url h) = [Call_fetch_pdf url; Http_get url].
Proof.
  destruct (http_get W (h ++ [Call_fetch_pdf url]) url)
    as [msg|response] eqn:E.
  - by rewrite (fetch_pdf_unanswered W url h msg E).
  - rewrite (fetch_pdf_answered W url h response E). cbn [snd].
    destruct (status response =? 200)%Z; [|reflexivity].
    destruct (read response) as [msg|content]; [reflexivity|].
    by rewrite extract_text_silent.
Qed.


(** X2. The exceptions of [session.get] and of [response.read()] leave
    [fetch_pdf] as they are, neither as a fetch error nor as an extraction
    error; and these are the only library exceptions that leave it. *)
Theorem transport_errors_pass_through (W : World) (url : string) (h : trace)
        (msg : string) :
  fst (fetch_pdf W url h) = inl (External msg) <->
  http_get W (h ++ [Call_fetch_pdf url]) url = inl msg \/
  exists response,
    http_get W (h ++ [Call_fetch_pdf url]) url = inr response /\
    status response = 200%Z /\
    read response = inl msg.
Proof.
  destruct (http_get W (h ++ [Call_fetch_pdf url]) url)
    as [msg'|response] eqn:E.
  - rewrite (fetch_pdf_unanswered W url h msg' E). cbn [fst]. split.
    + intros [= ->]. by left.
    + intros [[= ->]|(response & [=] & _)]. done.
  - rewrite (fetch_pdf_answered W url h response E). cbn [fst].
    destruct (Z.eqb_spec (status response) 200) as [Hok|Hbad].
    + destruct (read response) as [msg'|content] eqn:Hread.
      * split.
        -- intros [= ->]. right. by exists response.
        -- intros [[=]|(response' & [= <-] & _ & Hmsg)].
           rewrite Hread in Hmsg. by injection Hmsg as ->.
      * split.
        -- by destruct (fst (extract_text W content _)).
        -- intros [[=]|(response' & [= <-] & _ & Hmsg)].
           by rewrite Hread in Hmsg.
    + split; [done|]. intros [[=]|(response' & [= <-] & Hok & _)]. done.
Qed.

(** X3. [fetch_pdf] raises its extraction error only for a 200 answer whose
    body was read and does not parse, and the message is then the fixed
    prefix followed by the text of the exception of the parser. *)
Theorem extraction_error_only_on_parse_failure (W : World) (url : string)
        (h : trace) (msg : string) :
  fst (fetch_pdf W url h) = inl (ExtractFailed msg) <->
  exists response content detail,
    http_get W (h ++ [Call_fetch_pdf url]) url = inr response /\
    status response = 200%Z /\
    read response = inr content /\
    parse_fails W content detail /\
    msg = "Failed to extract text from PDF: " +:+ detail.
Proof.
  split.
  - destruct (http_get W (h ++ [Call_fetch_pdf url]) url)
      as [msg'|response] eqn:E.
    + by rewrite (fetch_pdf_unanswered W url h msg' E).
    + rewrite (fetch_pdf_answered W url h response E). cbn [fst].
      destruct (Z.eqb_spec (status response) 200) as [Hok|Hbad]; [|done].
      destruct (read response) as [msg'|content] eqn:Hread; [done|].
      destruct (extract_text_cases W content
                  (h ++ [Call_fetch_pdf url; Http_get url]))
        as [(texts & _ & ->)|(detail & Hfail & ->)]; [done|].
      cbn. intros [= <-]. by exists response, content, detail.
  - intros (response & content & detail & E & Hok & Hread & Hfail & ->).
    rewrite (fetch_pdf_answered W url h response E), Hok, Hread.
    by rewrite (extract_text_fails W content detail _ Hfail).
Qed.

(** X4. [fetch_pdf] returns a text only for a 200 answer whose body was
    read, parses, and gives a text for every page; what it returns is then
    these texts end to end. *)
Theorem fetch_pdf_returns_only_parsed_text (W : World) (url : string)
        (h : trace) (text : string) :
  fst (fetch_pdf W url h) = inr text <->
  exists response content texts,
    http_get W (h ++ [Call_fetch_pdf url]) url = inr response /\
    status response = 200%Z /\
    read response = inr content /\
    PdfReader W content = inr (map inr texts) /\
    text = String.concat "" texts.
Proof.
  split.
  - destruct (http_get W (h ++ [Call_fetch_pdf url]) url)
      as [msg'|response] eqn:E.
    + by rewrite (fetch_pdf_unanswered W url h msg' E).
    + rewrite (fetch_pdf_answered W url h response E). cbn [fst].
      destruct (Z.eqb_spec (status response) 200) as [Hok|Hbad]; [|done].
      destruct (read response) as [msg'|content] eqn:Hread; [done|].
      destruct (extract_text_cases W content
                  (h ++ [Call_fetch_pdf url; Http_get url]))
        as [(texts & Hpages & ->)|(detail & _ & ->)]; [|done].
      cbn. intros [= <-]. by exists response, content, texts.
  - intros (response & content & texts & E & Hok & Hread & Hpages & ->).
    rewrite (fetch_pdf_answered W url h response E), Hok, Hread.
    by rewrite (extract_text_ok W content texts _ Hpages).
Qed.

(** ** [analyze_document] *)

Lemma analyze_document_run (W : World) (self : InvestigativeAgent) text h :
  analyze_document W self text h =
  match llm W (h ++ [Call_analyze_document text])
            (format (document_chain self) text) with
  | inl msg =>
      (inl (External msg),
       [Call_analyze_document text;
        Llm_arun (format (document_chain self) text)])
  | inr analysis =>
      (match llm W (h ++ [Call_analyze_document text;
                          Llm_arun (format (document_chain self) text)])
                 (format (analysis_chain self) analysis) with
       | inl msg => inl (External msg)
       | inr result => inr result
       end,
       [Call_analyze_document text;
        Llm_arun (format (document_chain self) text);
        Llm_arun (format (analysis_chain self) analysis)])
  end.
Proof.
  unfold analyze_document, arun. run_unfold.
  destruct (llm W _ _) as [msg|analysis]; [reflexivity|].
  rewrite <- app_assoc. cbn [app]. by destruct (llm W _ _).
Qed.

(** X5. [analyze_document] returns exactly when both completions succeed,
    the second on a prompt made of the reply to the first, and it returns
    the second reply; when the first completion raises, the second chain is
    not asked. *)
Theorem analyze_document_two_stages (W : World) (self : InvestigativeAgent)
        (text : string) (h : trace) :
  let first := format (document_chain self) text in
  let h1 := h ++ [Call_analyze_document text] in
  (forall result,
      fst (analyze_document W self text h) = inr result <->
      exists analysis,
        llm W h1 first = inr analysis /\
        llm W (h1 ++ [Llm_arun first])
            (format (analysis_chain self) analysis) = inr result) /\
  (forall msg,
      llm W h1 first = inl msg ->
      analyze_document W self text h =
      (inl (External msg), [Call_analyze_document text; Llm_arun first])) /\
  1 <= length (llm_prompts (snd (analyze_document W self text h))) <= 2.
Proof.
  intros first h1. subst first h1. rewrite analyze_document_run.
  rewrite <- app_assoc. cbn [app].
  destruct (llm W (h ++ [Call_analyze_document text]) _) as [msg|analysis].
  - split; [|split; [by intros ? [= ->]|cbn; lia]].
    intros result. split; [done|]. by intros (analysis & [=] & _).
  - split; [|split; [done|cbn; lia]].
    intros result. cbn [fst]. split.
    + intros Hr. exists analysis. split; [done|].
      by destruct (llm W _ _) as [?|?]; simplify_eq.
    + intros (analysis' & [= <-] & ->). done.
Qed.

(** ** Accounts of a run *)

Lemma fetch_pdf_calls_app w1 w2 :
  fetch_pdf_calls (w1 ++ w2) = fetch_pdf_calls w1 ++ fetch_pdf_calls w2.
Proof. apply omap_app. Qed.

Lemma http_gets_app w1 w2 : http_gets (w1 ++ w2) = http_gets w1 ++ http_gets w2.
Proof. apply omap_app. Qed.

Lemma llm_prompts_app w1 w2 :
  llm_prompts (w1 ++ w2) = llm_prompts w1 ++ llm_prompts w2.
Proof. apply omap_app. Qed.

Lemma printed_app w1 w2 : printed (w1 ++ w2) = printed w1 ++ printed w2.
Proof. apply omap_app. Qed.

Lemma find_connections_calls_app w1 w2 :
  find_connections_calls (w1 ++ w2)
  = find_connections_calls w1 ++ find_connections_calls w2.
Proof. apply omap_app. Qed.

Lemma generate_report_calls_app w1 w2 :
  generate_report_calls (w1 ++ w2)
  = generate_report_calls w1 ++ generate_report_calls w2.
Proof. apply omap_app. Qed.

Lemma agent_prompts_app w1 w2 :
  agent_prompts (w1 ++ w2) = agent_prompts w1 ++ agent_prompts w2.
Proof. apply omap_app. Qed.

Create Rewrite HintDb account.
#[local] Hint Rewrite fetch_pdf_calls_app http_gets_app llm_prompts_app
  printed_app find_connections_calls_app generate_report_calls_app
  agent_prompts_app @length_app @concat_app @map_app : account.

Section Accounts.

Variable W : World.
Variable self : InvestigativeAgent.

(** The events of the work on one URL, before its diagnostic. *)
Lemma attempt_account url h :
  fetch_pdf_calls (snd (attempt W self url h)) = [url] /\
  http_gets (snd (attempt W self url h)) = [url] /\
  printed (snd (attempt W self url h)) = [] /\
  length (llm_prompts (snd (attempt W self url h))) <= 2.
Proof.
  unfold attempt, bind.
  pose proof (fetch_pdf_trace W url h) as Hfetch.
  destruct (fetch_pdf W url h) as [[e|text] w]; cbn [snd] in *; subst w.
  - cbn. repeat split; lia.
  - rewrite analyze_document_run.
    destruct (llm W _ _) as [msg|analysis]; cbn; repeat split; lia.
Qed.

(** The documents of a batch: every URL is fetched once, in order, and
    ends as a diagnostic line or as an analysis. *)
Lemma outcomes_account batch h :
  fetch_pdf_calls (snd (outcomes W self batch h)) = batch /\
  http_gets (snd (outcomes W self batch h)) = batch /\
  length (printed (snd (outcomes W self batch h)))
  + length (successes (fst (outcomes W self batch h))) = length batch /\
  length (llm_prompts (snd (outcomes W self batch h))) <= 2 * length batch.
Proof.
  revert h. induction batch as [|url rest IH]; intros h.
  - cbn. repeat split; lia.
  - cbn [outcomes].
    destruct (attempt_account url h) as (Hf & Hg & Hp & Hl).
    destruct (attempt W self url h) as [o w]. cbn [snd] in *.
    match goal with
    | |- context [outcomes W self rest ?h'] =>
        destruct (IH h') as (IHf & IHg & IHp & IHl);
        destruct (outcomes W self rest h') as [os w2]
    end.
    cbn [fst snd] in *.
    unfold successes in *.
    destruct o as [e|analysis]; autorewrite with account;
      rewrite ?Hf, ?Hg, ?Hp, ?IHf, ?IHg; cbn in *; repeat split; try lia.
Qed.

(** The loop over the batches, one round unrolled. *)
Lemma batch_loop_cons batch bs findings h :
  for_each (batch :: bs) (batch_step W self) findings h =
  let os := fst (outcomes W self batch h) in
  let w := snd (outcomes W self batch h) in
  match successes os with
  | [] =>
      (fst (for_each bs (batch_step W self) findings (h ++ w)),
       w ++ snd (for_each bs (batch_step W self) findings (h ++ w)))
  | _ :: _ =>
      let docs := successes os in
      let wc := [Call_find_connections docs; Agent_arun (prompt_of docs)] in
      match agent W (h ++ w ++ [Call_find_connections docs]) (prompt_of docs) with
      | inl msg => (inl (External msg), w ++ wc)
      | inr reply =>
          let following :=
            for_each bs (batch_step W self)
                     (findings ++ [Finding docs reply]) (h ++ w ++ wc) in
          (fst following, w ++ wc ++ snd following)
      end
  end.
Proof.
  rewrite for_each_cons. unfold bind. rewrite batch_step_outcomes.
  destruct (outcomes W self batch h) as [os w]. cbn [fst snd].
  destruct (successes os) as [|doc docs] eqn:Hs.
  - by destruct (for_each bs _ _ _).
  - rewrite find_connections_run. unfold prompt_of.
    rewrite <- app_assoc.
    destruct (agent W _ _) as [msg|reply]; [reflexivity|].
    destruct (for_each bs _ _ _). cbn [fst snd].
    by rewrite <- app_assoc.
Qed.

End Accounts.

Section Loop.

Variable W : World.
Variable self : InvestigativeAgent.

(** The account of the loop over the batches, whatever the world does:
    - the URLs are fetched in the order of the batches, one GET for each;
      the loop that returns has fetched them all;
    - a fetched URL ends as a diagnostic line or as an analysis given to the
      Connection Finder;
    - at most two completions for a URL, at most one call of the Connection
      Finder for a batch, on at least one analysis and at most as many as
      the batch has URLs, and one prompt to the agent for each call;
    - no call of [generate_report];
    - the loop that raises has just asked the agent, which raised; the loop
      that returns has appended one finding for each call of the Connection
      Finder, holding the analyses of the call. *)
Lemma batch_loop_account bs findings h :
  let r := for_each bs (batch_step W self) findings h in
  generate_report_calls (snd r) = [] /\
  http_gets (snd r) = fetch_pdf_calls (snd r) /\
  (exists later,
      concat bs = fetch_pdf_calls (snd r) ++ later /\
      (forall findings', fst r = inr findings' -> later = [])) /\
  length (printed (snd r)) + length (concat (find_connections_calls (snd r)))
  = length (fetch_pdf_calls (snd r)) /\
  length (llm_prompts (snd r)) <= 2 * length (fetch_pdf_calls (snd r)) /\
  length (find_connections_calls (snd r)) <= length bs /\
  agent_prompts (snd r) = map prompt_of (find_connections_calls (snd r)) /\
  Forall (fun docs => exists batch,
              batch ∈ bs /\ 1 <= length docs <= length batch)
         (find_connections_calls (snd r)) /\
  match fst r with
  | inl e =>
      exists msg docs w0,
        e = External msg /\
        snd r = w0 ++ [Call_find_connections docs; Agent_arun (prompt_of docs)] /\
        agent W (h ++ w0 ++ [Call_find_connections docs]) (prompt_of docs)
        = inl msg
  | inr findings' =>
      exists new,
        findings' = findings ++ new /\
        map batch_results new = find_connections_calls (snd r)
  end.
Proof.
  revert findings h. induction bs as [|batch bs IH]; intros findings h.
  - cbn. repeat split; try done; try lia.
    + by exists [].
    + exists []. by rewrite app_nil_r.
  - cbn zeta. rewrite batch_loop_cons. cbn zeta.
    destruct (outcomes_account W self batch h) as (Hf & Hg & Hp & Hl).
    pose proof (outcomes_events W self batch h) as Hev.
    apply document_events_calls in Hev as (Hfc & Hgr & Hap).
    destruct (outcomes W self batch h) as [os w]. cbn [fst snd] in *.
    destruct (successes os) as [|doc docs] eqn:Hs.
    + specialize (IH findings (h ++ w)). cbn zeta in IH.
      destruct (for_each bs (batch_step W self) findings (h ++ w)) as [r wr].
      cbn [fst snd] in *.
      destruct IH as (IHgr & IHg & (later & IHc & IHall) & IHp & IHl & IHn
                      & IHap & IHd & IHr).
      autorewrite with account.
      rewrite Hgr, Hg, Hf, Hfc, Hap, IHgr, IHg. cbn [app length concat] in *.
      repeat split; try done; try lia.
      * exists later. split; [by rewrite IHc, app_assoc|done].
      * eapply Forall_impl; [exact IHd|].
        intros ds (b & Hb & Hlen). exists b. split; [by right|done].
      * destruct r as [e|findings']; [|done].
        destruct IHr as (msg & ds & w0 & -> & -> & Hagent).
        exists msg, ds, (w ++ w0). rewrite <- !app_assoc in *. by split.
    + set (wc := [Call_find_connections (doc :: docs);
                  Agent_arun (prompt_of (doc :: docs))]).
      assert (1 <= length (doc :: docs) <= length batch) as Hdocs
          by (cbn in *; lia).
      destruct (agent W _ _) as [msg|reply] eqn:Hagent.
      * cbn [fst snd]. autorewrite with account.
        rewrite Hgr, Hg, Hf, Hfc, Hap. subst wc.
        cbn -[prompt_of] in *. rewrite ?app_nil_r in *.
        repeat split; try done; try lia.
        -- by exists (concat bs).
        -- constructor; [|constructor]. exists batch.
           split; [by left|cbn; lia].
        -- by exists msg, (doc :: docs), w.
      * match goal with
        | |- context [for_each bs _ ?f ?h'] => specialize (IH f h')
        end.
        cbn zeta in IH.
        destruct (for_each bs (batch_step W self) _ _) as [r wr].
        cbn [fst snd] in *.
        destruct IH as (IHgr & IHg & (later & IHc & IHall) & IHp & IHl & IHn
                        & IHap & IHd & IHr).
        autorewrite with account.
        rewrite Hgr, Hg, Hf, Hfc, Hap, IHgr, IHg, IHap. subst wc.
        cbn -[prompt_of] in *. rewrite ?app_nil_r in *.
        autorewrite with account in *. cbn [length] in *.
        repeat split; try done; try lia.
        -- exists later. split; [by rewrite IHc, app_assoc|done].
        -- constructor.
           ++ exists batch. split; [by left|cbn; lia].
           ++ eapply Forall_impl; [exact IHd|].
              intros ds (b & Hb & Hlen). exists b. split; [by right|done].
        -- destruct r as [e|findings'].
           ++ destruct IHr as (msg & ds & w0 & -> & -> & Hagent').
              exists msg, ds,
                (w ++ [Call_find_connections (doc :: docs);
                       Agent_arun (prompt_of (doc :: docs))] ++ w0).
              rewrite <- !app_assoc in *. cbn [app] in *. by split.
           ++ destruct IHr as (new & -> & Hnew).
              exists (Finding (doc :: docs) reply :: new).
              rewrite <- app_assoc. cbn. by rewrite Hnew.
Qed.

End Loop.

(** ** The whole run *)

Lemma batches_sizes (pdf_urls : list string) :
  Forall (fun batch => 1 <= length batch <= 3) (batches pdf_urls).
Proof.
  apply Forall_lookup_2. intros k batch Hk.
  apply batches_lookup in Hk as [-> Hlt].
  rewrite length_take, length_drop. lia.
Qed.

Lemma concat_batches (pdf_urls : list string) :
  concat (batches pdf_urls) = pdf_urls.
Proof. unfold batches, range. by rewrite concat_slices, drop_0 by lia. Qed.

Lemma batches_count (pdf_urls : list string) :
  length (batches pdf_urls) = (length pdf_urls + 2) / 3.
Proof.
  pose proof (batches_length pdf_urls).
  apply (Nat.div_unique _ 3 _ (length pdf_urls + 2
                                - 3 * length (batches pdf_urls))); lia.
Qed.

Section WholeRun.

Variable W : World.
Variable self : InvestigativeAgent.

(** The three ways [process_batch] ends, on the loop over the batches: the
    loop raised; it left no finding; it left findings and the report was
    asked for. *)
Lemma process_batch_shape pdf_urls h :
  let loop := for_each (batches pdf_urls) (batch_step W self) [] h in
  (exists e,
      fst loop = inl e /\
      process_batch W self pdf_urls h = (inl e, snd loop)) \/
  (fst loop = inr [] /\
   process_batch W self pdf_urls h = (inr error_marker, snd loop)) \/
  (exists findings,
      findings <> [] /\ fst loop = inr findings /\
      let prompt :=
        format (report_chain self)
          (String.concat (LF +:+ LF) (map (str_finding W) findings)) in
      process_batch W self pdf_urls h =
      (match llm W (h ++ snd loop ++ [Call_generate_report findings]) prompt with
       | inl msg => inl (External msg)
       | inr report => inr (PyStr report)
       end,
       snd loop ++ [Call_generate_report findings; Llm_arun prompt])).
Proof.
  cbn zeta. rewrite process_batch_batches.
  destruct (for_each (batches pdf_urls) _ _ _) as [[e|[|finding findings]] w];
    cbn [fst snd].
  - left. by exists e.
  - right. by left.
  - right. right. exists (finding :: findings).
    split; [done|]. split; [done|].
    rewrite generate_report_run. cbn [fst snd]. rewrite <- app_assoc.
    by destruct (llm W _ _).
Qed.

End WholeRun.

Ltac open_run W self pdf_urls h :=
  pose proof (batch_loop_account W self (batches pdf_urls) [] h)
    as (Agr & Ag & (later & Ac & Aall) & Ap & Al & An & Aap & Ad & Ar);
  pose proof (process_batch_shape W self pdf_urls h)
    as [(e & Hloop & Hrun)|[(Hloop & Hrun)|(fs & Hne & Hloop & Hrun)]];
  cbn zeta in *; rewrite Hrun; cbn [fst snd];
  rewrite Hloop in Aall, Ar; rewrite concat_batches in Ac;
  autorewrite with account; cbn -[prompt_of Nat.mul Nat.div];
  rewrite ?app_nil_r.

(** X6. In every run the URLs are fetched in the order of the input, one
    GET for each call of [fetch_pdf], and what has been fetched when the run
    ends is a beginning of the input. *)
Theorem urls_fetched_in_input_order (W : World) (self : InvestigativeAgent)
        (pdf_urls : list string) (h : trace) :
  http_gets (snd (process_batch W self pdf_urls h))
  = fetch_pdf_calls (snd (process_batch W self pdf_urls h)) /\
  exists later,
    pdf_urls = fetch_pdf_calls (snd (process_batch W self pdf_urls h)) ++ later.
Proof.
  open_run W self pdf_urls h; (split; [done|by exists later]).
Qed.

(** X7. A run that returns, with the report or with the error marker, has
    fetched every URL of the input once for each of its occurrences, in
    order. *)
Theorem returning_run_fetched_every_url (W : World)
        (self : InvestigativeAgent) (pdf_urls : list string) (h : trace)
        (value : py_value) :
  fst (process_batch W self pdf_urls h) = inr value ->
  fetch_pdf_calls (snd (process_batch W self pdf_urls h)) = pdf_urls /\
  http_gets (snd (process_batch W self pdf_urls h)) = pdf_urls.
Proof.
  open_run W self pdf_urls h; intros Hvalue; try done.
  - rewrite (Aall [] eq_refl), app_nil_r in Ac. by rewrite Ag, <- Ac.
  - rewrite (Aall fs eq_refl), app_nil_r in Ac. by rewrite Ag, <- Ac.
Qed.

Lemma returning_run_fetched_every_url_witness :
  fetch_pdf_calls (snd (process_batch healthy_world an_agent seven_urls []))
  = seven_urls.
Proof.
  apply (returning_run_fetched_every_url healthy_world an_agent seven_urls []
           (PyStr "completion 32")).
  vm_compute. reflexivity.
Defined.

(** X8. In every run each URL that was fetched ends as a diagnostic line
    or as an analysis given to the Connection Finder: the number of lines
    printed and the number of analyses in the calls of [find_connections]
    add up to the number of calls of [fetch_pdf]. *)
Theorem every_fetched_url_is_accounted_for (W : World)
        (self : InvestigativeAgent) (pdf_urls : list string) (h : trace) :
  length (printed (snd (process_batch W self pdf_urls h)))
  + length (concat (find_connections_calls
                      (snd (process_batch W self pdf_urls h))))
  = length (fetch_pdf_calls (snd (process_batch W self pdf_urls h))).
Proof. open_run W self pdf_urls h; lia. Qed.

(** X9. What [process_batch] raises is never an error of a document: it
    is the exception of the agent, raised in a call of [find_connections],
    or the exception of the model, raised on the prompt of the report, and
    the call that raised is the last event of the run. *)
Theorem process_batch_raises_only_late_errors (W : World)
        (self : InvestigativeAgent) (pdf_urls : list string) (h : trace)
        (e : exn) :
  fst (process_batch W self pdf_urls h) = inl e ->
  exists msg,
    e = External msg /\
    ((exists docs w0,
         snd (process_batch W self pdf_urls h)
         = w0 ++ [Call_find_connections docs; Agent_arun (prompt_of docs)] /\
         agent W (h ++ w0 ++ [Call_find_connections docs]) (prompt_of docs)
         = inl msg) \/
     (exists findings w0,
         let prompt :=
           format (report_chain self)
             (String.concat (LF +:+ LF) (map (str_finding W) findings)) in
         snd (process_batch W self pdf_urls h)
         = w0 ++ [Call_generate_report findings; Llm_arun prompt] /\
         llm W (h ++ w0 ++ [Call_generate_report findings]) prompt
         = inl msg)).
Proof.
  pose proof (batch_loop_account W self (batches pdf_urls) [] h)
    as (_ & _ & _ & _ & _ & _ & _ & _ & Ar).
  pose proof (process_batch_shape W self pdf_urls h)
    as [(e' & Hloop & Hrun)|[(Hloop & Hrun)|(findings & Hne & Hloop & Hrun)]];
    cbn zeta in *; rewrite Hrun; cbn [fst snd]; rewrite Hloop in Ar.
  - intros [= <-]. destruct Ar as (msg & docs & w0 & -> & Hw & Hagent).
    exists msg. split; [done|]. left. by exists docs, w0.
  - done.
  - destruct (llm W _ _) as [msg|report] eqn:Hllm; [|done].
    intros [= <-]. exists msg. split; [done|]. right.
    by eexists findings, _.
Qed.

Lemma process_batch_raises_only_late_errors_witness :
  exists msg,
    External "rate limit exceeded" = External msg /\
    fst (process_batch agent_down_world an_agent [doc_a] []) = inl (External msg).
Proof.
  destruct (process_batch_raises_only_late_errors agent_down_world an_agent
              [doc_a] [] (External "rate limit exceeded"))
    as (msg & Hmsg & _).
  - vm_compute. reflexivity.
  - exists msg. split; [exact Hmsg|]. rewrite <- Hmsg. vm_compute. reflexivity.
Defined.

(** X10. In every run [find_connections] is called on at least one and at
    most three analyses, never on an empty list, and the agent is asked once
    for each call, on the prompt made of the analyses of the call. *)
Theorem connection_finder_gets_one_to_three (W : World)
        (self : InvestigativeAgent) (pdf_urls : list string) (h : trace) :
  Forall (fun docs => 1 <= length docs <= 3)
         (find_connections_calls (snd (process_batch W self pdf_urls h))) /\
  agent_prompts (snd (process_batch W self pdf_urls h))
  = map prompt_of
        (find_connections_calls (snd (process_batch W self pdf_urls h))).
Proof.
  assert (forall calls : list (list string),
             Forall (fun docs => exists batch,
                         batch ∈ batches pdf_urls /\
                         1 <= length docs <= length batch) calls ->
             Forall (fun docs => 1 <= length docs <= 3) calls) as Hsize.
  { intros calls Hcalls. eapply Forall_impl; [exact Hcalls|].
    intros docs (batch & Hin & Hlen).
    pose proof (batches_sizes pdf_urls) as Hall.
    rewrite Forall_forall in Hall. specialize (Hall batch Hin). lia. }
  open_run W self pdf_urls h; split; auto.
Qed.


(** X12. The findings given to [generate_report] are not empty and hold,
    batch after batch, the analyses that were given to the Connection
    Finder, each finding those of one call. *)
Theorem report_findings_are_the_connection_calls (W : World)
        (self : InvestigativeAgent) (pdf_urls : list string) (h : trace)
        (findings : list finding) :
  findings ∈ generate_report_calls (snd (process_batch W self pdf_urls h)) ->
  findings <> [] /\
  map batch_results findings
  = find_connections_calls (snd (process_batch W self pdf_urls h)) /\
  generate_report_calls (snd (process_batch W self pdf_urls h)) = [findings].
Proof.
  open_run W self pdf_urls h; rewrite ?Agr; cbn [app].
  - by intros ?%elem_of_nil.
  - by intros ?%elem_of_nil.
  - intros ->%list_elem_of_singleton.
    destruct Ar as (new & Hnew & Hcalls). cbn [app] in Hnew. subst new.
    by rewrite Hcalls.
Qed.

Lemma report_findings_are_the_connection_calls_witness :
  map batch_results
      [Finding ["completion 4"; "completion 12"] "connections";
       Finding ["completion 28"] "connections"]
  = find_connections_calls
      (snd (process_batch healthy_world an_agent seven_urls [])).
Proof.
  apply (report_findings_are_the_connection_calls healthy_world an_agent
           seven_urls []).
  vm_compute. apply list_elem_of_singleton. reflexivity.
Defined.

(** X13. When [process_batch] returns a dict, it is the error marker and
    no document succeeded: every URL was fetched and left its diagnostic
    line, and neither the Connection Finder, nor the agent, nor
    [generate_report] was called. *)
Theorem dict_result_means_no_success (W : World)
        (self : InvestigativeAgent) (pdf_urls : list string) (h : trace)
        (items : list (string * string)) :
  fst (process_batch W self pdf_urls h) = inr (PyDict items) ->
  items = [("error", "No documents were successfully processed")] /\
  fetch_pdf_calls (snd (process_batch W self pdf_urls h)) = pdf_urls /\
  length (printed (snd (process_batch W self pdf_urls h)))
  = length pdf_urls /\
  find_connections_calls (snd (process_batch W self pdf_urls h)) = [] /\
  agent_prompts (snd (process_batch W self pdf_urls h)) = [] /\
  generate_report_calls (snd (process_batch W self pdf_urls h)) = [].
Proof.
  open_run W self pdf_urls h; intros Hvalue; try done.
  - injection Hvalue as <-.
    rewrite (Aall [] eq_refl), app_nil_r in Ac.
    destruct Ar as (new & Hnew & Hcalls).
    symmetry in Hnew. apply app_eq_nil in Hnew as [_ ->].
    cbn in Hcalls. rewrite <- Hcalls in Ap, Aap. cbn in Ap, Aap.
    pose proof (f_equal length Ac) as Hlen.
    split; [done|]. split; [by symmetry|]. split; [lia|].
    split; [by symmetry|]. by split.
  - by destruct (llm W _ _).
Qed.

Lemma dict_result_means_no_success_witness :
  length (printed (snd (process_batch not_found_world an_agent
                          [doc_a; doc_b; doc_c; doc_d] []))) = 4.
Proof.
  apply (dict_result_means_no_success not_found_world an_agent
           [doc_a; doc_b; doc_c; doc_d] []
           [("error", "No documents were successfully processed")]).
  vm_compute. reflexivity.
Defined.

(** ** Batches, once more *)

Lemma batches_lookup_total (pdf_urls : list string) (i : nat) :
  batches pdf_urls !! i =
  if decide (3 * i < length pdf_urls)
  then Some (take 3 (drop (3 * i) pdf_urls))
  else None.
Proof.
  pose proof (batches_length pdf_urls) as Hlen.
  destruct (batches pdf_urls !! i) as [batch|] eqn:E.
  - apply batches_lookup in E as [-> Hlt]. by rewrite decide_True.
  - apply lookup_ge_None in E. rewrite decide_False; [done|lia].
Qed.

Lemma for_each_app {A S} (xs ys : list A) (body : A -> S -> M S) s h :
  for_each (xs ++ ys) body s h
  = bind (for_each xs body s) (for_each ys body) h.
Proof.
  revert s h. induction xs as [|x xs IH]; intros s h.
  - cbn [app for_each]. unfold bind, ret. rewrite app_nil_r.
    by destruct (for_each ys body s h).
  - cbn [app]. rewrite for_each_cons. unfold bind at 1.
    unfold bind at 1. rewrite for_each_cons. unfold bind at 1.
    destruct (body x s h) as [[e|s'] w]; [reflexivity|].
    rewrite IH. unfold bind.
    destruct (for_each xs body s' (h ++ w)) as [[e|s''] w']; [reflexivity|].
    rewrite <- !app_assoc.
    destruct (for_each ys body s'' _) as [r w'']. by rewrite <- app_assoc.
Qed.

(** X14. URLs added after a whole number of batches leave these batches
    as they are: the batches of the longer list are those of the first part
    followed by those of the second, and the run on the longer list begins
    with the events of the loop over the batches of the first part. *)
Theorem batches_of_appended_urls (W : World) (self : InvestigativeAgent)
        (first second : list string) (k : nat) (h : trace) :
  length first = 3 * k ->
  batches (first ++ second) = batches first ++ batches second /\
  exists rest,
    snd (process_batch W self (first ++ second) h)
    = snd (for_each (batches first) (batch_step W self) [] h) ++ rest.
Proof.
  intros Hfirst.
  assert (batches (first ++ second) = batches first ++ batches second) as Happ.
  { pose proof (batches_length first) as Hlen.
    apply list_eq. intros i. rewrite batches_lookup_total, length_app.
    destruct (decide (i < k)) as [Hi|Hi].
    - rewrite lookup_app_l by lia. rewrite batches_lookup_total.
      rewrite !decide_True by lia.
      rewrite drop_app_le by lia. rewrite take_app_le; [done|].
      rewrite length_drop. lia.
    - rewrite lookup_app_r by lia. rewrite batches_lookup_total.
      replace (length (batches first)) with k by lia.
      rewrite drop_app_ge by lia.
      replace (3 * i - length first) with (3 * (i - k)) by lia.
      destruct (decide (3 * (i - k) < length second)).
      + by rewrite decide_True by lia.
      + by rewrite decide_False by lia. }
  split; [exact Happ|].
  rewrite process_batch_batches, Happ, for_each_app. unfold bind at 1.
  destruct (for_each (batches first) _ _ _) as [[e|findings] w]; cbn [fst snd].
  - exists []. by rewrite app_nil_r.
  - destruct (for_each (batches second) _ _ _) as [[e|[|f fs]] w'];
      cbn [fst snd]; rewrite <- ?app_assoc; by eexists.
Qed.

Lemma batches_of_appended_urls_witness :
  batches ([doc_a; doc_b; doc_c] ++ [doc_d])
  = batches [doc_a; doc_b; doc_c] ++ batches [doc_d].
Proof.
  apply (batches_of_appended_urls healthy_world an_agent
           [doc_a; doc_b; doc_c] [doc_d] 1 []).
  reflexivity.
Defined.

(** X15. A list of one to three URLs is one batch, the list itself. *)
Theorem short_list_is_one_batch (pdf_urls : list string) :
  1 <= length pdf_urls <= 3 -> batches pdf_urls = [pdf_urls].
Proof.
  intros Hlen. apply list_eq. intros [|i]; rewrite batches_lookup_total.
  - rewrite decide_True by lia. change (3 * 0) with 0. rewrite drop_0.
    by rewrite take_ge by lia.
  - by rewrite decide_False by lia.
Qed.

Lemma short_list_is_one_batch_witness : batches main_urls = [main_urls].
Proof. apply (short_list_is_one_batch main_urls). cbn. lia. Defined.

(** ** The entry point *)

Lemma main_run (W : World) (env : environ) h :
  main W env h =
  match __init__ W env with
  | inl e => (inl e, [])
  | inr investigator =>
      match process_batch W investigator main_urls h with
      | (inl e, w) => (inl e, w)
      | (inr report, w) => (inr tt, w ++ [Print (py_str W report)])
      end
  end.
Proof.
  unfold main. unfold bind at 1.
  destruct (__init__ W env) as [e|investigator]; [reflexivity|].
  cbn [app]. rewrite app_nil_r. unfold bind at 1.
  destruct (process_batch W investigator main_urls h) as [[e|report] w];
    [reflexivity|].
  run_unfold. by rewrite ?app_nil_r.
Qed.

(** X16. Without the key in the environment, or with an empty one, [main]
    raises the [ValueError] of the constructor before anything else: no
    request, no completion, nothing printed. *)
Theorem main_fails_fast_without_key (W : World) (env : environ) (h : trace) :
  getenv env "OPENROUTER_API_KEY" = None \/
  getenv env "OPENROUTER_API_KEY" = Some "" ->
  main W env h =
  (inl (ValueError "OPENROUTER_API_KEY environment variable not set"), []).
Proof.
  intros Hkey. rewrite main_run. unfold __init__.
  by destruct Hkey as [->| ->].
Qed.

Lemma main_fails_fast_without_key_witness :
  main healthy_world ∅ [] =
  (inl (ValueError "OPENROUTER_API_KEY environment variable not set"), []).
Proof.
  apply (main_fails_fast_without_key healthy_world ∅ []).
  left. reflexivity.
Defined.

(** X17. A [main] that returns has fetched its three URLs in order, as one
    batch, so that the agent was asked at most once, and the last thing it
    did was to print the result of [process_batch]: the report, or the text
    of the error marker. *)
Theorem main_prints_the_result_last (W : World) (env : environ) (h : trace) :
  fst (main W env h) = inr tt ->
  exists investigator value w,
    __init__ W env = inr investigator /\
    process_batch W investigator main_urls h = (inr value, w) /\
    snd (main W env h) = w ++ [Print (py_str W value)] /\
    fetch_pdf_calls w = main_urls /\
    length (agent_prompts w) <= 1.
Proof.
  rewrite main_run.
  destruct (__init__ W env) as [e|investigator]; [done|].
  pose proof (batch_loop_account W investigator (batches main_urls) [] h)
    as (_ & Ag & (later & Ac & Aall) & _ & _ & An & Aap & _ & _).
  pose proof (process_batch_shape W investigator main_urls h) as Hshape.
  cbn zeta in *.
  change (batches main_urls) with [main_urls] in *.
  destruct Hshape as [(e & Hloop & Hrun)|[(Hloop & Hrun)
                      |(findings & Hne & Hloop & Hrun)]];
    rewrite Hrun; cbn [fst snd]; [done| |].
  - intros _. exists investigator, error_marker. eexists.
    split; [done|]. split; [exact Hrun|]. split; [done|].
    rewrite (Aall [] Hloop), app_nil_r in Ac.
    change (concat [main_urls]) with main_urls in Ac.
    split; [by rewrite <- Ac|].
    rewrite Aap, length_map. cbn [length] in An. lia.
  - destruct (llm W _ _) as [msg|report] eqn:Hllm; [done|].
    intros _. exists investigator, (PyStr report). eexists.
    split; [done|]. split; [exact Hrun|]. split; [done|].
    rewrite (Aall findings Hloop), app_nil_r in Ac.
    change (concat [main_urls]) with main_urls in Ac.
    autorewrite with account.
    cbn [fetch_pdf_calls agent_prompts omap list_omap app length].
    rewrite !app_nil_r, ?Nat.add_0_r.
    split; [by rewrite <- Ac|].
    rewrite Aap, length_map. cbn [length] in An. lia.
Qed.

Lemma main_prints_the_result_last_witness :
  exists investigator value w,
    __init__ healthy_world an_environ = inr investigator /\
    process_batch healthy_world investigator main_urls [] = (inr value, w) /\
    snd (main healthy_world an_environ [])
    = w ++ [Print (py_str healthy_world value)] /\
    fetch_pdf_calls w = main_urls /\
    length (agent_prompts w) <= 1.
Proof.
  apply (main_prints_the_result_last healthy_world an_environ []).
  vm_compute. reflexivity.
Defined.

(** ** What is printed *)

Section Diagnostics.

Variable W : World.
Variable self : InvestigativeAgent.

Lemma outcomes_printed batch h :
  Forall (fun line => exists url e, url ∈ batch /\ line = diagnostic url e)
         (printed (snd (outcomes W self batch h))).
Proof.
  revert h. induction batch as [|url rest IH]; intros h; [constructor|].
  cbn [outcomes].
  destruct (attempt_account W self url h) as (_ & _ & Hp & _).
  destruct (attempt W self url h) as [o w]. cbn [snd] in Hp.
  match goal with
  | |- context [outcomes W self rest ?h'] =>
      specialize (IH h'); destruct (outcomes W self rest h') as [os w2]
  end.
  cbn [snd] in *. autorewrite with account.
  apply Forall_app. split.
  - destruct o as [e|analysis]; autorewrite with account; rewrite Hp;
      [|constructor].
    cbn. constructor; [|constructor]. exists url, e. split; [by left|done].
  - eapply Forall_impl; [exact IH|].
    intros line (u & e & Hin & ->). exists u, e. split; [by right|done].
Qed.

Lemma batch_loop_printed bs findings h :
  Forall (fun line => exists url e, url ∈ concat bs /\ line = diagnostic url e)
         (printed (snd (for_each bs (batch_step W self) findings h))).
Proof.
  revert findings h. induction bs as [|batch bs IH]; intros findings h;
    [constructor|].
  rewrite batch_loop_cons. cbn zeta.
  pose proof (outcomes_printed batch h) as Hbatch.
  destruct (outcomes W self batch h) as [os w]. cbn [fst snd] in *.
  assert (forall w',
             Forall (fun line => exists url e,
                         url ∈ concat bs /\ line = diagnostic url e)
                    (printed w') ->
             Forall (fun line => exists url e,
                         url ∈ concat (batch :: bs) /\ line = diagnostic url e)
                    (printed (w ++ w'))) as Hjoin.
  { intros w' Hw'. autorewrite with account. apply Forall_app. split.
    - eapply Forall_impl; [exact Hbatch|].
      intros line (u & e & Hin & ->). exists u, e.
      split; [|done]. cbn [concat]. apply elem_of_app. by left.
    - eapply Forall_impl; [exact Hw'|].
      intros line (u & e & Hin & ->). exists u, e.
      split; [|done]. cbn [concat]. apply elem_of_app. by right. }
  destruct (successes os) as [|doc docs].
  - cbn [snd]. apply Hjoin, IH.
  - destruct (agent W _ _) as [msg|reply]; cbn [snd]; apply Hjoin.
    + cbn. constructor.
    + rewrite printed_app. cbn [printed omap list_omap app]. apply IH.
Qed.

End Diagnostics.

